(** * CodeSense: the leaderboard refresh engine

    A shallow embedding of the leaderboard route (the four platform stat
    fetchers, [updateLeaderboardBatch], [refreshLeaderboard]) and of the
    Codeforces single-platform update route, followed by the properties
    the specification states about them.

    Conventions of the embedding.
    - JavaScript values are the values [JSON.parse] can produce, plus
      [undefined] and [NaN], which property access and [+] can produce.
      The numbers of payloads and scores are integers ([Z]), which is
      what they are in JavaScript as long as they stay within 2^53 in
      magnitude; fractional payload numbers are outside the model.  The
      delays of the timers are doubles, computed as JavaScript computes
      them.
    - An [await]ed promise that rejects and a synchronous [throw] are the
      same thing here: a [Throw] completion.  [try]/[catch] is [try_catch].
    - The outside world (the platform endpoints) is a record of functions
      from the request to its outcome, fixed during one run. *)

From Stdlib Require Import ZArith QArith List String Ascii Bool Lia.
From Stdlib Require Import Permutation Sorted DecimalString.
From Stdlib Require Import Qround Floats.
Import ListNotations.

Set Implicit Arguments.
Set Warnings "-register-all".

Open Scope string_scope.
Open Scope list_scope.

(** ** JavaScript values and the operators the routes use *)

Module JS.

Inductive value : Type :=
| VUndefined
| VNull
| VBool (b : bool)
| VNum (n : Z)
| VNaN
| VStr (s : string)
| VArr (elems : list value)
| VObj (props : list (string * value)).

Inductive error : Type :=
| TypeError        (* property of null/undefined, call of a non-function *)
| NetworkError     (* fetch() rejected *)
| SyntaxError      (* response.json() / request.json() rejected *)
| RequestError     (* octokit.request() rejected *)
| CastError        (* the schema refused a value *)
| StoreError.      (* the database is unreachable *)

Inductive completion (A : Type) : Type :=
| Normal (a : A)
| Throw (e : error).
Arguments Throw {A} e.

Definition bind {A B} (c : completion A) (k : A -> completion B)
  : completion B :=
  match c with
  | Normal a => k a
  | Throw e => Throw e
  end.

(** [try { body } catch (error) { handler }] *)
Definition try_catch {A} (body : completion A)
           (handler : error -> completion A) : completion A :=
  match body with
  | Normal a => Normal a
  | Throw e => handler e
  end.

Definition nullish (v : value) : bool :=
  match v with
  | VUndefined | VNull => true
  | _ => false
  end.

(** ToBoolean *)
Definition truthy (v : value) : bool :=
  match v with
  | VUndefined | VNull | VNaN => false
  | VBool b => b
  | VNum n => negb (n =? 0)%Z
  | VStr s => negb (String.eqb s EmptyString)
  | VArr _ | VObj _ => true
  end.

(** [a || b] *)
Definition or (a b : value) : value := if truthy a then a else b.

(** [v === "literal"] *)
Definition strict_eq_str (v : value) (lit : string) : bool :=
  match v with
  | VStr s => String.eqb s lit
  | _ => false
  end.

Fixpoint assoc (k : string) (props : list (string * value)) : value :=
  match props with
  | [] => VUndefined
  | (k', v) :: rest => if String.eqb k k' then v else assoc k rest
  end.

(** The value of [v.k] for a [v] that is neither null nor undefined, and
    a data key [k].  Arrays and strings have [length] (a string counts
    one unit per character here); the methods of the prototypes are not
    data and are not looked up through this. *)
Definition prop (v : value) (k : string) : value :=
  match v with
  | VStr s =>
      if String.eqb k "length" then VNum (Z.of_nat (String.length s))
      else VUndefined
  | VArr l =>
      if String.eqb k "length" then VNum (Z.of_nat (List.length l))
      else VUndefined
  | VObj props => assoc k props
  | _ => VUndefined
  end.

(** [v.k] *)
Definition get (v : value) (k : string) : completion value :=
  if nullish v then Throw TypeError else Normal (prop v k).

(** [v?.k] *)
Definition get_opt (v : value) (k : string) : value :=
  if nullish v then VUndefined else prop v k.

Definition string_of_Z (n : Z) : string :=
  NilZero.string_of_int (Z.to_int n).

(** The value of [v[i]] for a [v] that is neither null nor undefined. *)
Definition item (v : value) (i : nat) : value :=
  match v with
  | VArr l => nth i l VUndefined
  | VStr s =>
      match String.get i s with
      | Some c => VStr (String c EmptyString)
      | None => VUndefined
      end
  | VObj props => assoc (string_of_Z (Z.of_nat i)) props
  | _ => VUndefined
  end.

(** [v[i]] *)
Definition elem (v : value) (i : nat) : completion value :=
  if nullish v then Throw TypeError else Normal (item v i).

(** [v.map(f)] needs [v] to be an array: nothing else a payload can hold
    has a callable [map]. *)
Definition array_elems (v : value) : completion (list value) :=
  match v with
  | VArr l => Normal l
  | _ => Throw TypeError
  end.

(** ToString; an array joins its elements with commas, null and
    undefined elements giving the empty string. *)
Fixpoint to_string (v : value) : string :=
  match v with
  | VUndefined => "undefined"
  | VNull => "null"
  | VBool true => "true"
  | VBool false => "false"
  | VNum n => string_of_Z n
  | VNaN => "NaN"
  | VStr s => s
  | VArr l =>
      (fix join (l : list value) : string :=
         match l with
         | [] => EmptyString
         | x :: rest =>
             let item := if nullish x then EmptyString else to_string x in
             match rest with
             | [] => item
             | _ :: _ => (item ++ "," ++ join rest)%string
             end
         end) l
  | VObj _ => "[object Object]"
  end.

(** ToPrimitive *)
Definition to_primitive (v : value) : value :=
  match v with
  | VArr _ | VObj _ => VStr (to_string v)
  | _ => v
  end.

(** ToNumber of a primitive that is not a string; [None] is NaN. *)
Definition to_number (v : value) : option Z :=
  match v with
  | VNull => Some 0%Z
  | VBool b => Some (if b then 1 else 0)%Z
  | VNum n => Some n
  | _ => None
  end.

(** [a + b].  The sum of two numbers is their exact sum, which is the
    double JavaScript computes when the two numbers and the sum are safe
    integers ([safe_integer], below). *)
Definition add (a b : value) : value :=
  let a' := to_primitive a in
  let b' := to_primitive b in
  match a', b' with
  | VStr _, _ | _, VStr _ => VStr (to_string a' ++ to_string b')%string
  | _, _ =>
      match to_number a', to_number b' with
      | Some x, Some y => VNum (x + y)
      | _, _ => VNaN
      end
  end.

(** [Number.MAX_SAFE_INTEGER], 2^53 - 1: up to it in magnitude every
    integer is a double, and a sum of doubles that is such an integer
    comes out exact. *)
Definition MAX_SAFE_INTEGER : Z := 9007199254740991.

Definition safe_integer (n : Z) : Prop :=
  (- MAX_SAFE_INTEGER <= n <= MAX_SAFE_INTEGER)%Z.

End JS.

Import JS.

Declare Scope js_scope.
Delimit Scope js_scope with js.
Notation "x <- c ;; k" := (JS.bind c (fun x => k))
  (at level 61, c at next level, right associativity) : js_scope.
Open Scope js_scope.

(** ** The outside world

    [fetch(url)] followed by [response.json()]: the request is rejected,
    the body is not JSON, or the body parses to a value.  The status code
    of the response is not looked at by the routes. *)

Inductive fetch_outcome : Type :=
| FetchRejected
| BodyNotJson
| Body (data : value).

(** [octokit.request(route, params)]: rejected (network failure or a
    status of 400 and above), or resolved with a response whose [data]
    is the parsed body. *)
Inductive octokit_outcome : Type :=
| RequestRejected
| Response (data : value).

(** The endpoints, each keyed by what the route puts into the request:
    the username interpolated into the URL, and for a commit list the
    owner and the [name] of the repository. *)
Record World : Type := {
  codechef_api : string -> fetch_outcome;
  codeforces_api : string -> fetch_outcome;
  leetcode_api : string -> fetch_outcome;
  github_repos : string -> octokit_outcome;
  github_commits : string -> value -> octokit_outcome
}.

Definition fetch_json (o : fetch_outcome) : completion value :=
  match o with
  | FetchRejected => Throw NetworkError
  | BodyNotJson => Throw SyntaxError
  | Body data => Normal data
  end.

Definition octokit_request (o : octokit_outcome) : completion value :=
  match o with
  | RequestRejected => Throw RequestError
  | Response data => Normal data
  end.

(** ** Fetching Data Functions *)

(** What a fetcher returns: [{ score }]. *)
Module Stat.
Record result : Type := { score : value }.
End Stat.

Definition StatResult : Type := Stat.result.

Definition fetchCodeChefStats (w : World) (username prevScore : value)
  : completion StatResult :=
  try_catch
    (data <- fetch_json (codechef_api w (to_string username)) ;;
     success <- get data "success" ;;
     if truthy success then
       heatMap <- get data "heatMap" ;;
       Normal {| Stat.score := JS.or (get_opt heatMap "length") (VNum 0) |}
     else Normal {| Stat.score := prevScore |})
    (fun _ => Normal {| Stat.score := prevScore |}).

Definition fetchCodeforcesStats (w : World) (username prevScore : value)
  : completion StatResult :=
  try_catch
    (data <- fetch_json (codeforces_api w (to_string username)) ;;
     status <- get data "status" ;;
     if strict_eq_str status "OK" then
       result <- get data "result" ;;
       first <- elem result 0 ;;
       contribution <- get first "contribution" ;;
       Normal {| Stat.score := JS.or contribution (VNum 0) |}
     else Normal {| Stat.score := prevScore |})
    (fun _ => Normal {| Stat.score := prevScore |}).

Definition fetchLeetCodeStats (w : World) (username prevScore : value)
  : completion StatResult :=
  try_catch
    (data <- fetch_json (leetcode_api w (to_string username)) ;;
     status <- get data "status" ;;
     if strict_eq_str status "success" then
       totalSolved <- get data "totalSolved" ;;
       Normal {| Stat.score := JS.or totalSolved (VNum 0) |}
     else Normal {| Stat.score := prevScore |})
    (fun _ => Normal {| Stat.score := prevScore |}).

(** The callback [Promise.all] runs for one repository: it adds the length
    of the repository's commit list to [totalCommits].  Its handler logs
    [repo.name], which is evaluated again there. *)
Definition repoCommits (w : World) (username totalCommits repo : value)
  : completion value :=
  try_catch
    (name <- get repo "name" ;;
     data <- octokit_request (github_commits w (to_string username) name) ;;
     len <- get data "length" ;;
     Normal (add totalCommits (JS.or len (VNum 0))))
    (fun _ =>
       _ <- get repo "name" ;;
       Normal totalCommits).

(** The callbacks of [Promise.all] update the one counter [totalCommits],
    each after its own request has resolved; the responses are taken here
    to arrive in the order of the array.  A callback that rejects makes
    [Promise.all] reject. *)
Fixpoint sumCommits (w : World) (username totalCommits : value)
         (repos : list value) : completion value :=
  match repos with
  | [] => Normal totalCommits
  | repo :: rest =>
      total <- repoCommits w username totalCommits repo ;;
      sumCommits w username total rest
  end.

Definition fetchGitHubStats (w : World) (username prevScore : value)
  : completion StatResult :=
  if negb (truthy username) then Normal {| Stat.score := prevScore |}
  else
    try_catch
      (data <- octokit_request (github_repos w (to_string username)) ;;
       len <- get data "length" ;;
       if negb (truthy len) then Normal {| Stat.score := prevScore |}
       else
         repos <- array_elems data ;;
         totalCommits <- sumCommits w username (VNum 0) repos ;;
         Normal {| Stat.score := totalCommits |})
      (fun _ => Normal {| Stat.score := prevScore |}).

(** ** The user store

    Modelled from the spec: the user schema ([models/user]) is not part
    of the sources.  A user has identity fields, for each of the four
    platforms an entry {username: optional string, score: integer}, an
    aggregate [totalScore] and a [rank].  The routes guard every read of a
    platform entry ([platforms.codechef?.score || 0]), so an entry and
    each of its two fields may be absent; [platforms] itself is read
    without a guard and is always there. *)

Module Store.

Record PlatformEntry : Type := {
  username : option string;
  score : option Z
}.

Record Platforms : Type := {
  codechef : option PlatformEntry;
  codeforces : option PlatformEntry;
  leetcode : option PlatformEntry;
  github : option PlatformEntry
}.

Record User : Type := {
  _id : nat;
  name : string;
  email : string;
  rollno : string;
  department : string;
  section : string;
  platforms : Platforms;
  totalScore : Z;
  rank : Z
}.

(** The collection, in the order [User.find()] returns it. *)
Definition t : Type := list User.

(** [entry?.score] and [entry?.username] read from a document. *)
Definition entry_score (e : option PlatformEntry) : value :=
  match e with
  | Some {| score := Some n |} => VNum n
  | _ => VUndefined
  end.

Definition entry_username (e : option PlatformEntry) : value :=
  match e with
  | Some {| username := Some s |} => VStr s
  | _ => VUndefined
  end.

(** [$set] of the dotted path [platforms.<p>.score]: the entry is created
    when it is absent, its username is left as it is. *)
Definition set_score (e : option PlatformEntry) (n : Z)
  : option PlatformEntry :=
  Some {| username := match e with Some e' => username e' | None => None end;
          score := Some n |}.

Definition with_scores (a b c d total : Z) (u : User) : User :=
  {| _id := _id u; name := name u; email := email u; rollno := rollno u;
     department := department u; section := section u;
     platforms :=
       {| codechef := set_score (codechef (platforms u)) a;
          codeforces := set_score (codeforces (platforms u)) b;
          leetcode := set_score (leetcode (platforms u)) c;
          github := set_score (github (platforms u)) d |};
     totalScore := total;
     rank := rank u |}.

Definition with_rank (r : Z) (u : User) : User :=
  {| _id := _id u; name := name u; email := email u; rollno := rollno u;
     department := department u; section := section u;
     platforms := platforms u;
     totalScore := totalScore u;
     rank := r |}.

(** [findByIdAndUpdate]: the first document with this [_id] is updated,
    none when there is no such document. *)
Fixpoint update_by_id (id : nat) (f : User -> User) (st : t) : t :=
  match st with
  | [] => []
  | u :: rest =>
      if Nat.eqb (_id u) id then f u :: rest
      else u :: update_by_id id f rest
  end.

(** [User.find().sort({ totalScore: -1 })]: descending by [totalScore],
    users of equal [totalScore] in the order of the collection. *)
Fixpoint insert_desc (u : User) (sorted : list User) : list User :=
  match sorted with
  | [] => [u]
  | v :: rest =>
      if (totalScore v <=? totalScore u)%Z then u :: v :: rest
      else v :: insert_desc u rest
  end.

Fixpoint sort_totalScore_desc (st : t) : list User :=
  match st with
  | [] => []
  | u :: rest => insert_desc u (sort_totalScore_desc rest)
  end.

(** What the schema and the database decide and the sources do not show:
    the cast of a value written to a number field ([None]: the value is
    refused with a CastError), the cast of a value written to a string
    field, and whether a document matches the filter [{ email }]. *)
Record Schema : Type := {
  castNumber : value -> option Z;
  castString : value -> option string;
  matchesEmail : value -> User -> bool
}.

End Store.

Import Store.

(** ** Batch Update Function *)

(** The object [updateLeaderboardBatch] passes to [findByIdAndUpdate]. *)
Record ScoreUpdate : Type := {
  codechef_score : value;
  codeforces_score : value;
  leetcode_score : value;
  github_score : value;
  total_score : value
}.

(** One platform of one user: fetch when a username is registered, carry
    the previous score forward otherwise. *)
Definition platformStats (fetcher : value -> value -> completion StatResult)
           (e : option PlatformEntry) (prev : value)
  : completion StatResult :=
  if truthy (entry_username e) then fetcher (entry_username e) prev
  else Normal {| Stat.score := prev |}.

(** The body of the loop of [updateLeaderboardBatch] up to the write. *)
Definition userScores (w : World) (user : User) : completion ScoreUpdate :=
  let p := platforms user in
  let prevCodechef := JS.or (entry_score (codechef p)) (VNum 0) in
  let prevCodeforces := JS.or (entry_score (codeforces p)) (VNum 0) in
  let prevLeetcode := JS.or (entry_score (leetcode p)) (VNum 0) in
  let prevGithub := JS.or (entry_score (github p)) (VNum 0) in
  codechefStats <-
    platformStats (fetchCodeChefStats w) (codechef p) prevCodechef ;;
  codeforcesStats <-
    platformStats (fetchCodeforcesStats w) (codeforces p) prevCodeforces ;;
  leetcodeStats <-
    platformStats (fetchLeetCodeStats w) (leetcode p) prevLeetcode ;;
  githubStats <-
    platformStats (fetchGitHubStats w) (github p) prevGithub ;;
  let totalScore :=
    add (add (add (Stat.score codechefStats)
                  (Stat.score codeforcesStats))
             (Stat.score leetcodeStats))
        (Stat.score githubStats) in
  Normal {| codechef_score := Stat.score codechefStats;
            codeforces_score := Stat.score codeforcesStats;
            leetcode_score := Stat.score leetcodeStats;
            github_score := Stat.score githubStats;
            total_score := totalScore |}.

(** The write of one user's scores.  The schema casts the five values to
    numbers before anything is sent to the database and rejects the whole
    update with a CastError when one of them cannot be cast. *)
Definition findByIdAndUpdate_scores (db : Schema)
           (id : nat) (upd : ScoreUpdate) (st : Store.t)
  : completion Store.t :=
  match castNumber db (codechef_score upd),
        castNumber db (codeforces_score upd),
        castNumber db (leetcode_score upd),
        castNumber db (github_score upd),
        castNumber db (total_score upd) with
  | Some a, Some b, Some c, Some d, Some total =>
      Normal (update_by_id id (with_scores a b c d total) st)
  | _, _, _, _, _ => Throw CastError
  end.

(** One iteration of the loop: [try { ... } catch (error) { log }]. *)
Definition updateUser (db : Schema) (w : World)
           (st : Store.t) (user : User) : Store.t :=
  match (upd <- userScores w user ;;
         findByIdAndUpdate_scores db (_id user) upd st) with
  | Normal st' => st'
  | Throw _ => st
  end.

(** [users] are the documents read when the refresh began; the writes go
    to the store as it is when the batch runs. *)
Definition updateLeaderboardBatch (db : Schema)
           (w : World) (users : list User) (st : Store.t) : Store.t :=
  fold_left (updateUser db w) users st.

(** ** Main Refresh Function *)

Inductive task : Type :=
| UpdateBatch (users : list User)
| UpdateRanks.

(** A call of [setTimeout(callback, delay)]: [delay] is the rational
    number the double passed as delay is, in milliseconds. *)
Record Timer : Type := {
  callback : task;
  delay : Q
}.

(** The doubles of the delay arithmetic, on the primitive floats. *)
Module Double.

(** An array index, an array length or an integer literal as a double
    (itself, up to 2^53 in magnitude). *)
Definition of_Z (n : Z) : float :=
  if (n <? 0)%Z then (- PrimFloat.of_uint63 (Uint63.of_Z (- n)))%float
  else PrimFloat.of_uint63 (Uint63.of_Z n).

(** A constant given as a quotient of integers; a whole number is
    itself. *)
Definition of_Q (x : Q) : float :=
  (of_Z (Qnum x) / of_Z (Zpos (Qden x)))%float.

(** The rational a finite double is.  Infinities and NaN, which are not
    rationals, are given as 0: [setTimeout] takes 1 ms for them as it
    does for 0. *)
Definition to_Q (f : float) : Q :=
  match Prim2SF f with
  | S754_finite s m e =>
      let n := if s then Zneg m else Zpos m in
      if (0 <=? e)%Z then inject_Z (n * 2 ^ e)
      else n # Z.to_pos (2 ^ (- e))
  | _ => 0
  end.

End Double.

(** [(n / batchSize) * updateInterval], in doubles. *)
Definition quotientDelay (n : Z) (batchSize : nat) (updateInterval : Q)
  : float :=
  (Double.of_Z n / Double.of_Z (Z.of_nat batchSize)
   * Double.of_Q updateInterval)%float.

(** [users.slice(i, j)] for [i <= j] *)
Definition slice {A} (l : list A) (i j : nat) : list A :=
  firstn (j - i)%nat (skipn i l).

Definition batchDelay (i batchSize : nat) (updateInterval : Q) : Q :=
  Double.to_Q (quotientDelay (Z.of_nat i) batchSize updateInterval).

(** [for (let i = 0; i < users.length; i += batchSize) setTimeout(...)],
    from the value [i] has reached.  Each turn of the loop costs one unit
    of fuel; [None] when the fuel runs out before the loop ends. *)
Fixpoint scheduleBatches (fuel : nat) (users : list User) (batchSize : nat)
         (updateInterval : Q) (i : nat) : option (list Timer) :=
  if Nat.ltb i (List.length users) then
    match fuel with
    | O => None
    | S fuel' =>
        match scheduleBatches fuel' users batchSize updateInterval
                              (i + batchSize)%nat with
        | Some timers =>
            Some ({| callback :=
                       UpdateBatch (slice users i (i + batchSize)%nat);
                     delay := batchDelay i batchSize updateInterval |}
                    :: timers)
        | None => None
        end
    end
  else Some [].

Definition ranksDelay (users : list User) (batchSize : nat)
           (updateInterval : Q) : Q :=
  Double.to_Q
    (quotientDelay (Z.of_nat (List.length users)) batchSize updateInterval
     + 5000)%float.

(** The timers [refreshLeaderboard] registers, in the order of
    registration, for a batch size and an update interval. *)
Definition scheduleRefresh (fuel : nat) (batchSize : nat)
           (updateInterval : Q) (users : list User) : option (list Timer) :=
  match scheduleBatches fuel users batchSize updateInterval 0 with
  | Some timers =>
      Some (timers
              ++ [{| callback := UpdateRanks;
                     delay := ranksDelay users batchSize updateInterval |}])
  | None => None
  end.

Arguments batchDelay : simpl never.
Arguments ranksDelay : simpl never.

Definition batchSize : nat := 10.
Definition updateInterval : Q := 60000.

Definition refreshLeaderboard (fuel : nat) (st : Store.t)
  : option (list Timer) :=
  scheduleRefresh fuel batchSize updateInterval st.

(** The callback of the last timer: every user of the store sorted by
    [totalScore] descending gets its position plus one as [rank]. *)
Fixpoint assignRanks (updatedUsers : list User) (i : nat) (st : Store.t)
  : Store.t :=
  match updatedUsers with
  | [] => st
  | u :: rest =>
      assignRanks rest (S i)
                  (update_by_id (_id u) (with_rank (Z.of_nat i + 1)%Z) st)
  end.

Definition updateRanks (st : Store.t) : Store.t :=
  assignRanks (sort_totalScore_desc st) 0 st.

(** ** A complete refresh cycle

    [setTimeout] of Node takes 1 ms for a delay that is not between 1 and
    2^31 - 1, and cuts a delay to whole milliseconds.  The event loop
    fires the timers by increasing time, timers of equal time in the
    order they were registered.  A complete cycle is taken to run each
    callback to its end before the next timer fires: the route has
    nothing that enforces this. *)
Definition TIMEOUT_MAX : Z := 2147483647.

Definition timer_ms (d : Q) : Z :=
  if Qle_bool 1 d && Qle_bool d (inject_Z TIMEOUT_MAX) then Qfloor d
  else 1%Z.

Fixpoint insert_timer (t : Timer) (queue : list Timer) : list Timer :=
  match queue with
  | [] => [t]
  | t' :: rest =>
      if (timer_ms (delay t) <=? timer_ms (delay t'))%Z
      then t :: t' :: rest
      else t' :: insert_timer t rest
  end.

Fixpoint fire_order (timers : list Timer) : list Timer :=
  match timers with
  | [] => []
  | t :: rest => insert_timer t (fire_order rest)
  end.




(** ** The single-platform update route ([update-codeforces-stats]) *)

(** [await request.json()] *)
Inductive request_body : Type :=
| NotJson
| Json (v : value).

Definition request_json (b : request_body) : completion value :=
  match b with
  | NotJson => Throw SyntaxError
  | Json v => Normal v
  end.

(** [NextResponse.json({ message }, { status })] *)
Record HttpResponse : Type := {
  message : string;
  status : Z
}.

(** [await connectMongoDB()] ([lib/mongodb] is not part of the sources):
    it resolves when the database can be reached and rejects when not. *)
Definition connectMongoDB (reachable : bool) : completion unit :=
  if reachable then Normal tt else Throw StoreError.

(** [User.findOne({ email })] *)
Definition findOne (db : Schema) (email : value) (st : Store.t)
  : option User :=
  find (matchesEmail db email) st.

(** The two assignments to [user.platforms.codeforces]: the entry has to
    exist, and the schema casts what is assigned.  An [undefined] or
    [null] score leaves the field without a value. *)
Definition assignCodeforces (db : Schema) (user : User)
           (codeforcesUsername contribution : value) : completion User :=
  match codeforces (platforms user) with
  | None => Throw TypeError
  | Some _ =>
      match castString db codeforcesUsername with
      | None => Throw CastError
      | Some uname =>
          let entry (sc : option Z) :=
            Some {| username := Some uname; Store.score := sc |} in
          let updated (sc : option Z) :=
            {| _id := _id user; name := name user; email := email user;
               rollno := rollno user; department := department user;
               section := section user;
               platforms :=
                 {| codechef := codechef (platforms user);
                    codeforces := entry sc;
                    leetcode := leetcode (platforms user);
                    github := github (platforms user) |};
               totalScore := totalScore user;
               rank := rank user |} in
          if nullish contribution then Normal (updated None)
          else
            match castNumber db contribution with
            | None => Throw CastError
            | Some n => Normal (updated (Some n))
            end
      end
  end.

(** [await user.save()] *)
Definition save (user : User) (st : Store.t) : Store.t :=
  update_by_id (_id user) (fun _ => user) st.

Definition POST (db : Schema) (reachable : bool) (request : request_body)
           (st : Store.t) : HttpResponse * Store.t :=
  match
    (body <- request_json request ;;
     email <- get body "email" ;;
     codeforcesUsername <- get body "codeforcesUsername" ;;
     stats <- get body "stats" ;;
     if negb (truthy email) || negb (truthy codeforcesUsername)
        || negb (truthy stats)
     then Normal ({| message := "Missing required fields"; status := 400 |}, st)
     else
       _ <- connectMongoDB reachable ;;
       match findOne db email st with
       | None => Normal ({| message := "User not found"; status := 404 |}, st)
       | Some user =>
           contribution <- get stats "contribution" ;;
           user' <- assignCodeforces db user codeforcesUsername contribution ;;
           Normal ({| message := "User stats updated successfully";
                      status := 200 |}, save user' st)
       end)
  with
  | Normal r => r
  | Throw _ => ({| message := "Internal server error"; status := 500 |}, st)
  end.

(** ** Vocabulary of the properties *)

(** The outcomes on which a fetcher has no score to take from the
    response: the request or the parse failed, the payload is [null], its
    success predicate is false, or an access on the way to the score
    throws. *)
Definition codechef_fails (o : fetch_outcome) : bool :=
  match o with
  | Body data => nullish data || negb (truthy (prop data "success"))
  | _ => true
  end.

Definition codeforces_fails (o : fetch_outcome) : bool :=
  match o with
  | Body data =>
      nullish data
      || negb (strict_eq_str (prop data "status") "OK")
      || nullish (prop data "result")
      || nullish (item (prop data "result") 0)
  | _ => true
  end.

Definition leetcode_fails (o : fetch_outcome) : bool :=
  match o with
  | Body data =>
      nullish data || negb (strict_eq_str (prop data "status") "success")
  | _ => true
  end.

Definition github_fails (username : value) (o : octokit_outcome) : bool :=
  negb (truthy username)
  || match o with
     | RequestRejected => true
     | Response (VArr repos) =>
         match repos with
         | [] => true
         | _ :: _ => existsb nullish repos
         end
     | Response _ => true
     end.

(** The number of commits the commit-list request of one repository
    brings: the length of the list, 0 when the request fails. *)
Definition commitCount (w : World) (username repo : value) : Z :=
  match github_commits w (to_string username) (prop repo "name") with
  | Response (VArr commits) => Z.of_nat (List.length commits)
  | _ => 0
  end.

Definition commitListOrFailure (w : World) (username repo : value) : Prop :=
  nullish repo = false /\
  match github_commits w (to_string username) (prop repo "name") with
  | RequestRejected => True
  | Response data => exists commits, data = VArr commits
  end.

Definition sumZ (l : list Z) : Z := fold_right Z.add 0%Z l.

(** A score that is neither null, undefined nor a negative number. *)
Definition acceptable_score (v : value) : Prop :=
  v <> VNull /\ v <> VUndefined /\ forall n, v = VNum n -> (0 <= n)%Z.

(** The contract of a fetcher as the specification words it, at one
    input: it returns, the score is [prevScore] when the fetch failed, and
    the score is never null, undefined or negative. *)
Definition meets_contract (res : completion StatResult) (failed : bool)
           (prevScore : value) : Prop :=
  exists r, res = Normal r /\
            (failed = true -> Stat.score r = prevScore) /\
            acceptable_score (Stat.score r).

(** The contract the fetchers do meet: the score is null or undefined
    only when it is [prevScore] itself. *)
Definition falls_back (res : completion StatResult) (failed : bool)
           (prevScore : value) : Prop :=
  exists r, res = Normal r /\
            (failed = true -> Stat.score r = prevScore) /\
            (nullish (Stat.score r) = true -> Stat.score r = prevScore).

Inductive platform : Type := Codechef | Codeforces | Leetcode | Github.

(** [user.platforms.<p>] *)
Definition entry (p : platform) (u : User) : option PlatformEntry :=
  match p with
  | Codechef => codechef (platforms u)
  | Codeforces => codeforces (platforms u)
  | Leetcode => leetcode (platforms u)
  | Github => github (platforms u)
  end.

(** The value an update carries for [platforms.<p>.score]. *)
Definition updated_score (p : platform) (upd : ScoreUpdate) : value :=
  match p with
  | Codechef => codechef_score upd
  | Codeforces => codeforces_score upd
  | Leetcode => leetcode_score upd
  | Github => github_score upd
  end.

(** [User.findById(id)] *)
Definition lookup_id (id : nat) (st : Store.t) : option User :=
  find (fun u => Nat.eqb (_id u) id) st.

(** The ceiling of L / B, for B > 0. *)
Definition ceil_div (L B : nat) : nat := ((L + B - 1) / B)%nat.

(** The users a timer's callback is to update. *)
Definition batch_users (t : Timer) : list User :=
  match callback t with
  | UpdateBatch users => users
  | UpdateRanks => []
  end.

(** The timer of the batch that starts at index [i]. *)
Definition batchTimer (users : list User) (batchSize : nat)
           (updateInterval : Q) (i : nat) : Timer :=
  {| callback := UpdateBatch (slice users i (i + batchSize)%nat);
     delay := batchDelay i batchSize updateInterval |}.

(** The loop from [i]: as many timers as the ceiling says, [batchSize]
    apart. *)
Fixpoint batchTimers (n : nat) (users : list User) (batchSize : nat)
         (updateInterval : Q) (i : nat) : list Timer :=
  match n with
  | O => []
  | S n' =>
      batchTimer users batchSize updateInterval i
        :: batchTimers n' users batchSize updateInterval (i + batchSize)%nat
  end.

Definition ranksTimer (users : list User) (batchSize : nat)
           (updateInterval : Q) : Timer :=
  {| callback := UpdateRanks;
     delay := ranksDelay users batchSize updateInterval |}.

(** The delay of the rank recomputation in the words of the
    specification: (numberOfBatches x updateInterval) + 5000. *)
Definition claimedRanksDelay (users : list User) (batchSize : nat)
           (updateInterval : Q) : Q :=
  inject_Z (Z.of_nat (ceil_div (List.length users) batchSize))
  * updateInterval + 5000.

(** What the sequence of rank writes does to one document, given the ids
    of the sorted users from position [i] on: the first id that is the
    document's gives it its rank. *)
Fixpoint ranked (sorted_ids : list nat) (i : nat) (u : User) : User :=
  match sorted_ids with
  | [] => u
  | id :: rest =>
      if Nat.eqb (_id u) id then with_rank (Z.of_nat i + 1)%Z u
      else ranked rest (S i) u
  end.

(** The sorted users, each with its position plus one as rank. *)
Fixpoint numbered (i : nat) (sorted : list User) : list User :=
  match sorted with
  | [] => []
  | u :: rest => with_rank (Z.of_nat i + 1)%Z u :: numbered (S i) rest
  end.

(** Descending by [totalScore]. *)
Definition desc (u v : User) : Prop := (totalScore v <= totalScore u)%Z.

(** Timers in the order of their delays. *)
Definition earlier (t t' : Timer) : Prop :=
  (timer_ms (delay t) <= timer_ms (delay t'))%Z.

(** The fetcher of a platform. *)
Definition fetcher (p : platform) (w : World)
  : value -> value -> completion StatResult :=
  match p with
  | Codechef => fetchCodeChefStats w
  | Codeforces => fetchCodeforcesStats w
  | Leetcode => fetchLeetCodeStats w
  | Github => fetchGitHubStats w
  end.

(** What the iteration of the loop for the user read as [snapshot] does
    to the document of that user. *)
Definition applyScores (db : Schema) (w : World) (snapshot doc : User)
  : User :=
  match userScores w snapshot with
  | Normal upd =>
      match castNumber db (codechef_score upd),
            castNumber db (codeforces_score upd),
            castNumber db (leetcode_score upd),
            castNumber db (github_score upd),
            castNumber db (total_score upd) with
      | Some a, Some b, Some c, Some d, Some total =>
          with_scores a b c d total doc
      | _, _, _, _, _ => doc
      end
  | Throw _ => doc
  end.


(** *** Sample worlds *)

Definition silent_world : World :=
  {| codechef_api := fun _ => FetchRejected;
     codeforces_api := fun _ => FetchRejected;
     leetcode_api := fun _ => FetchRejected;
     github_repos := fun _ => RequestRejected;
     github_commits := fun _ _ => RequestRejected |}.

(** Codeforces answers with a contribution of -5. *)
Definition negative_contribution_world : World :=
  {| codechef_api := fun _ => FetchRejected;
     codeforces_api := fun _ =>
       Body (VObj [("status", VStr "OK");
                   ("result", VArr [VObj [("handle", VStr "carol");
                                          ("contribution", VNum (-5))]])]);
     leetcode_api := fun _ => FetchRejected;
     github_repos := fun _ => RequestRejected;
     github_commits := fun _ _ => RequestRejected |}.

(** Codeforces answers OK with an empty result list. *)
Definition empty_result_world : World :=
  {| codechef_api := fun _ => FetchRejected;
     codeforces_api := fun _ =>
       Body (VObj [("status", VStr "OK"); ("result", VArr [])]);
     leetcode_api := fun _ => FetchRejected;
     github_repos := fun _ => RequestRejected;
     github_commits := fun _ _ => RequestRejected |}.

Definition commit (sha : string) : value := VObj [("sha", VStr sha)].

(** bob owns two repositories, of 3 and of 5 commits; alice's CodeChef
    heat map has 8 entries. *)
Definition bob_world : World :=
  {| codechef_api := fun u =>
       if String.eqb u "alice"
       then Body (VObj [("success", VBool true);
                        ("heatMap", VArr (repeat (VObj []) 8))])
       else FetchRejected;
     codeforces_api := fun _ => FetchRejected;
     leetcode_api := fun _ => FetchRejected;
     github_repos := fun u =>
       if String.eqb u "bob"
       then Response (VArr [VObj [("name", VStr "site")];
                            VObj [("name", VStr "tools")]])
       else RequestRejected;
     github_commits := fun owner repo =>
       if String.eqb owner "bob" then
         if strict_eq_str repo "site"
         then Response (VArr [commit "a1"; commit "a2"; commit "a3"])
         else if strict_eq_str repo "tools"
         then Response (VArr [commit "b1"; commit "b2"; commit "b3";
                              commit "b4"; commit "b5"])
         else RequestRejected
       else RequestRejected |}.

(** *** A sample schema and sample users *)

(** A schema that takes numbers for number fields and strings for string
    fields, and nothing else; a filter on email matches the documents
    with that very string. *)
Definition strict_schema : Schema :=
  {| castNumber := fun v => match v with VNum n => Some n | _ => None end;
     castString := fun v => match v with VStr s => Some s | _ => None end;
     matchesEmail := fun q u => strict_eq_str q (email u) |}.

Definition alice : User :=
  {| _id := 1; name := "Alice"; email := "alice@example.org";
     rollno := "21A01"; department := "CSE"; section := "A";
     platforms :=
       {| codechef := Some {| username := Some "alice";
                              Store.score := Some 5%Z |};
          codeforces := Some {| username := None; Store.score := Some 3%Z |};
          leetcode := Some {| username := Some EmptyString;
                              Store.score := Some 4%Z |};
          github := None |};
     totalScore := 12; rank := 2 |}.

Definition bob : User :=
  {| _id := 2; name := "Bob"; email := "bob@example.org";
     rollno := "21A02"; department := "CSE"; section := "B";
     platforms :=
       {| codechef := None;
          codeforces := None;
          leetcode := Some {| username := None; Store.score := Some 6%Z |};
          github := Some {| username := Some "bob";
                            Store.score := Some 2%Z |} |};
     totalScore := 8; rank := 3 |}.

Definition carol : User :=
  {| _id := 3; name := "Carol"; email := "carol@example.org";
     rollno := "21A03"; department := "ECE"; section := "A";
     platforms :=
       {| codechef := Some {| username := Some "carol";
                              Store.score := Some 9%Z |};
          codeforces := Some {| username := None; Store.score := Some 0%Z |};
          leetcode := None;
          github := Some {| username := None; Store.score := Some 6%Z |} |};
     totalScore := 15; rank := 1 |}.

Definition sample_store : Store.t := [alice; bob; carol].

Definition numbered_user (i : nat) : User :=
  {| _id := i; name := "user"; email := "user@example.org";
     rollno := "21A00"; department := "CSE"; section := "A";
     platforms := {| codechef := None; codeforces := None;
                     leetcode := None; github := None |};
     totalScore := Z.of_nat i; rank := 0 |}.

Definition fifteen_users : list User := map numbered_user (seq 1 15).
Definition twenty_users : list User := map numbered_user (seq 1 20).

(** *** Sample requests *)

Definition request_without_stats : value :=
  VObj [("email", VStr "alice@example.org");
        ("codeforcesUsername", VStr "alice_cf")].

Definition request_unknown_email : value :=
  VObj [("email", VStr "nobody@example.org");
        ("codeforcesUsername", VStr "nobody_cf");
        ("stats", VObj [("contribution", VNum 12)])].

Definition bad_request : HttpResponse :=
  {| message := "Missing required fields"; status := 400 |}.

Definition not_found : HttpResponse :=
  {| message := "User not found"; status := 404 |}.

(** ** The leaderboard route ([leaderboard]) *)

Module Leaderboard.

(** [User.find({}).sort({ rank: 1 })]: ascending by [rank], users of
    equal [rank] in the order of the collection. *)
Fixpoint insert_asc (u : User) (sorted : list User) : list User :=
  match sorted with
  | [] => [u]
  | v :: rest =>
      if (rank u <=? rank v)%Z then u :: v :: rest
      else v :: insert_asc u rest
  end.

Fixpoint sort_rank_asc (st : Store.t) : list User :=
  match st with
  | [] => []
  | u :: rest => insert_asc u (sort_rank_asc rest)
  end.

(** What [NextResponse.json] is given: the array of users, or an object
    with a message. *)
Inductive payload : Type :=
| Users (leaderboard : list User)
| Message (message : string).

Record response : Type := {
  body : payload;
  status : Z
}.

(** The handler of the route.  The projection [select] names every field
    a [User] has here ([_id] comes with any projection), so it leaves a
    document as it is.  [reachable]: the connection and the query
    succeed. *)
Definition GET (reachable : bool) (st : Store.t) : response :=
  match
    (_ <- connectMongoDB reachable ;;
     Normal {| body := Users (sort_rank_asc st); status := 200 |})
  with
  | Normal r => r
  | Throw _ => {| body := Message "Internal server error"; status := 500 |}
  end.

End Leaderboard.

(** ** The daily schedule

    [cron.schedule("0 18 * * *", refreshLeaderboard,
    { timezone: "Asia/Kolkata" })].  The scheduler is a library
    ([node-cron]) outside the sources; the model follows its documented
    reading of an expression.  Of the expressions it reads the
    five-field ones whose fields are a number or a star, and of the time
    zones the one the route names, which has been 5 hours 30 minutes
    ahead of UTC all year since October 1945.  An instant is a number of
    minutes since the beginning of 1970, in UTC; earlier instants are
    left out. *)

Module Cron.

Inductive field : Type :=
| Any
| At (n : Z).

Record expression : Type := {
  minute : field;
  hour : field;
  day_of_month : field;
  month : field;
  day_of_week : field
}.

(** The words of a string, separated by single spaces; [word] is the
    word being read. *)
Fixpoint words (s : string) (word : string) : list string :=
  match s with
  | EmptyString => [word]
  | String c rest =>
      if Ascii.eqb c " "%char then word :: words rest EmptyString
      else words rest (word ++ String c EmptyString)%string
  end.

Definition parse_field (w : string) : option field :=
  if String.eqb w "*" then Some Any
  else if String.eqb w EmptyString then None
  else option_map (fun n => At (Z.of_uint n)) (NilEmpty.uint_of_string w).

Definition parse (s : string) : option expression :=
  match map parse_field (words s EmptyString) with
  | [Some mi; Some h; Some dm; Some mo; Some dw] =>
      Some {| minute := mi; hour := h; day_of_month := dm; month := mo;
              day_of_week := dw |}
  | _ => None
  end.

(** The minutes a time zone is ahead of UTC in the minute [t] after the
    beginning of 1970 (UTC).  Asia/Kolkata has been 5 h 30 min ahead
    since October 1945; earlier times, for which the time-zone database
    has other offsets, are left out, as are other zones. *)
Definition utc_offset (timezone : string) (t : Z) : option Z :=
  if String.eqb timezone "Asia/Kolkata" && (0 <=? t)%Z then Some 330%Z
  else None.

Definition matches (f : field) (v : Z) : bool :=
  match f with
  | Any => true
  | At n => (n =? v)%Z
  end.

(** Whether the job runs in the minute [t]; [None] for an expression
    that constrains the day, which takes a calendar to decide. *)
Definition fires (e : expression) (offset t : Z) : option bool :=
  match day_of_month e, month e, day_of_week e with
  | Any, Any, Any =>
      let local := (t + offset)%Z in
      Some (matches (minute e) (local mod 60)%Z
            && matches (hour e) ((local / 60) mod 24)%Z)
  | _, _, _ => None
  end.

(** The schedule of the route. *)
Definition refresh_fires (t : Z) : option bool :=
  match parse "0 18 * * *", utc_offset "Asia/Kolkata" t with
  | Some e, Some offset => fires e offset t
  | _, _ => None
  end.

End Cron.

(** ** More vocabulary *)

(** Two documents that differ at most in their platform scores and their
    [totalScore]. *)
Definition same_but_scores (u v : User) : Prop :=
  _id v = _id u /\ name v = name u /\ email v = email u /\
  rollno v = rollno u /\ department v = department u /\
  section v = section u /\ rank v = rank u /\
  forall p, entry_username (entry p v) = entry_username (entry p u).

(** Two documents that differ at most in their [rank]. *)
Definition same_but_rank (u v : User) : Prop := v = with_rank (rank v) u.

(** The user after the two assignments of the update route. *)
Definition with_codeforces (uname : string) (sc : option Z) (user : User)
  : User :=
  {| _id := _id user; name := name user; email := email user;
     rollno := rollno user; department := department user;
     section := section user;
     platforms :=
       {| codechef := codechef (platforms user);
          codeforces := Some {| username := Some uname; Store.score := sc |};
          leetcode := leetcode (platforms user);
          github := github (platforms user) |};
     totalScore := totalScore user;
     rank := rank user |}.

Definition updated : HttpResponse :=
  {| message := "User stats updated successfully"; status := 200 |}.

Definition internal_error : HttpResponse :=
  {| message := "Internal server error"; status := 500 |}.

Definition ascending (u v : User) : Prop := (rank u <= rank v)%Z.

Definition strictly_ascending (u v : User) : Prop := (rank u < rank v)%Z.

Definition is_batch (t : Timer) : Prop :=
  exists users, callback t = UpdateBatch users.

(** The fetch of platform [p] for [username] has no score to take
    from the response. *)
Definition platform_fails (w : World) (p : platform) (username : value)
  : bool :=
  match p with
  | Codechef => codechef_fails (codechef_api w (to_string username))
  | Codeforces => codeforces_fails (codeforces_api w (to_string username))
  | Leetcode => leetcode_fails (leetcode_api w (to_string username))
  | Github => github_fails username (github_repos w (to_string username))
  end.

(** *** More samples *)

(** LeetCode answers with the text "12" where a number is expected. *)
Definition text_world : World :=
  {| codechef_api := fun _ => FetchRejected;
     codeforces_api := fun _ => FetchRejected;
     leetcode_api := fun _ =>
       Body (VObj [("status", VStr "success"); ("totalSolved", VStr "12")]);
     github_repos := fun _ => RequestRejected;
     github_commits := fun _ _ => RequestRejected |}.

(** The three platforms answer with a success that has no score in it. *)
Definition scoreless_world : World :=
  {| codechef_api := fun _ => Body (VObj [("success", VBool true)]);
     codeforces_api := fun _ =>
       Body (VObj [("status", VStr "OK");
                   ("result", VArr [VObj [("handle", VStr "erin")]])]);
     leetcode_api := fun _ => Body (VObj [("status", VStr "success")]);
     github_repos := fun _ => RequestRejected;
     github_commits := fun _ _ => RequestRejected |}.

(** bob's repository list has a [null] in it. *)
Definition null_repo_world : World :=
  {| codechef_api := fun _ => FetchRejected;
     codeforces_api := fun _ => FetchRejected;
     leetcode_api := fun _ => FetchRejected;
     github_repos := fun _ =>
       Response (VArr [VObj [("name", VStr "site")]; VNull]);
     github_commits := fun _ _ =>
       Response (VArr [commit "a1"; commit "a2"]) |}.

Definition dave : User :=
  {| _id := 4; name := "Dave"; email := "dave@example.org";
     rollno := "21A04"; department := "ECE"; section := "B";
     platforms :=
       {| codechef := None;
          codeforces := None;
          leetcode := Some {| username := Some "dave";
                              Store.score := Some 7%Z |};
          github := None |};
     totalScore := 7; rank := 4 |}.

Definition request_alice_codeforces : value :=
  VObj [("email", VStr "alice@example.org");
        ("codeforcesUsername", VStr "alice_cf");
        ("stats", VObj [("contribution", VNum 12)])].

Definition request_bob_codeforces : value :=
  VObj [("email", VStr "bob@example.org");
        ("codeforcesUsername", VStr "bob_cf");
        ("stats", VObj [("contribution", VNum 4)])].

(** *** The delays of the route, checked by computation *)

(** The double [refreshLeaderboard] passes as the delay of the rank
    recomputation when it has read [L] users. *)
Definition ranksDouble (L : Z) : float :=
  (quotientDelay L batchSize updateInterval + 5000)%float.

(** The numbers of users for which that delay is one [setTimeout] takes
    as it is: 6000 x 357913 + 5000 is below 2^31 - 1, and 6000 x 357914
    + 5000 is above. *)
Definition within_timeout (users : list User) : Prop :=
  (Z.of_nat (List.length users) <= 357913)%Z.

(** [ok] holds of the [fuel] integers from [n] on. *)
Fixpoint holds_from (ok : Z -> bool) (fuel : nat) (n : Z) : bool :=
  match fuel with
  | O => true
  | S fuel' => if ok n then holds_from ok fuel' (n + 1)%Z else false
  end.

(** The delay of the rank recomputation for [L] users is a double
    m x 2^e that is within 2^-20 of 6000 L + 5000, and is that very
    number when 10 divides [L]. *)
Definition ranks_delay_ok (L : Z) : bool :=
  match Prim2SF (ranksDouble L) with
  | S754_finite false m e =>
      let T := (6000 * L + 5000)%Z in
      (e <? 0)%Z
      && (Z.abs (Zpos m - Z.shiftl T (- e)) * 1048576
          <=? Z.shiftl 1 (- e))%Z
      && (negb (L mod 10 =? 0)%Z || (Zpos m =? Z.shiftl T (- e))%Z)
  | _ => false
  end.

(** The delay of the batch that starts at index 10 k is the double
    60000 k. *)
Definition batch_delay_ok (k : Z) : bool :=
  match Prim2SF (quotientDelay (10 * k) batchSize updateInterval) with
  | S754_zero _ => (k =? 0)%Z
  | S754_finite false m e =>
      (e <? 0)%Z && (Zpos m =? Z.shiftl (60000 * k) (- e))%Z
  | _ => false
  end.

(** The time at which the timer of the k-th batch fires, in ms. *)
Definition batch_ms (k : Z) : Z := if (k =? 0)%Z then 1%Z else (60000 * k)%Z.


(** A schema that takes for a number field a number, or a text of
    decimal digits as the number it spells (the cast of Mongoose takes
    such a text through [Number]), and nothing else. *)
Definition casting_schema : Schema :=
  {| castNumber := fun v =>
       match v with
       | VNum n => Some n
       | VStr s => option_map Z.of_uint (NilEmpty.uint_of_string s)
       | _ => None
       end;
     castString := fun v => match v with VStr s => Some s | _ => None end;
     matchesEmail := fun q u => strict_eq_str q (email u) |}.

(** A request has the required field [key]: its body is JSON and has for
    [key] a value that the test of the route takes for present. *)
Definition has_field (request : request_body) (key : string) : bool :=
  match request with
  | NotJson => false
  | Json body => truthy (get_opt body key)
  end.

(** The schema takes the five values of an update: the write goes
    through. *)
Definition accepted (db : Schema) (upd : ScoreUpdate) : bool :=
  match castNumber db (codechef_score upd),
        castNumber db (codeforces_score upd),
        castNumber db (leetcode_score upd),
        castNumber db (github_score upd),
        castNumber db (total_score upd) with
  | Some _, Some _, Some _, Some _, Some _ => true
  | _, _, _, _, _ => false
  end.

(** * Properties *)

Unset Implicit Arguments.

(** ** The fetchers *)

Lemma or_not_nullish a n : nullish (JS.or a (VNum n)) = false.
Proof.
  unfold JS.or. destruct (truthy a) eqn:E; [|reflexivity].
  destruct a; simpl in *; congruence.
Qed.

(** What [fetchCodeChefStats] returns, case by case. *)
Lemma fetchCodeChefStats_eq w username prevScore :
  fetchCodeChefStats w username prevScore =
  Normal {| Stat.score :=
    match codechef_api w (to_string username) with
    | Body data =>
        if codechef_fails (Body data) then prevScore
        else JS.or (get_opt (prop data "heatMap") "length") (VNum 0)
    | _ => prevScore
    end |}.
Proof.
  unfold fetchCodeChefStats.
  destruct (codechef_api w (to_string username)) as [| |data]; simpl;
    try reflexivity.
  unfold get. destruct (nullish data); simpl; [reflexivity|].
  destruct (truthy (prop data "success")); reflexivity.
Qed.

Lemma fetchCodeforcesStats_eq w username prevScore :
  fetchCodeforcesStats w username prevScore =
  Normal {| Stat.score :=
    match codeforces_api w (to_string username) with
    | Body data =>
        if codeforces_fails (Body data) then prevScore
        else JS.or (prop (item (prop data "result") 0) "contribution")
                   (VNum 0)
    | _ => prevScore
    end |}.
Proof.
  unfold fetchCodeforcesStats.
  destruct (codeforces_api w (to_string username)) as [| |data]; simpl;
    try reflexivity.
  unfold get, elem. destruct (nullish data); simpl; [reflexivity|].
  destruct (strict_eq_str (prop data "status") "OK"); simpl; [|reflexivity].
  destruct (nullish (prop data "result")); simpl; [reflexivity|].
  destruct (nullish (item (prop data "result") 0)); reflexivity.
Qed.

Lemma fetchLeetCodeStats_eq w username prevScore :
  fetchLeetCodeStats w username prevScore =
  Normal {| Stat.score :=
    match leetcode_api w (to_string username) with
    | Body data =>
        if leetcode_fails (Body data) then prevScore
        else JS.or (prop data "totalSolved") (VNum 0)
    | _ => prevScore
    end |}.
Proof.
  unfold fetchLeetCodeStats.
  destruct (leetcode_api w (to_string username)) as [| |data]; simpl;
    try reflexivity.
  unfold get. destruct (nullish data); simpl; [reflexivity|].
  destruct (strict_eq_str (prop data "status") "success"); reflexivity.
Qed.

Lemma or_num n : JS.or (VNum n) (VNum 0) = VNum n.
Proof.
  unfold JS.or. simpl. destruct (Z.eqb_spec n 0); simpl; congruence.
Qed.

Lemma length_truthy (x : value) (l : list value) :
  truthy (prop (VArr (x :: l)) "length") = true.
Proof.
  cbn [prop]. simpl String.eqb. cbn [truthy].
  destruct (Z.eqb_spec (Z.of_nat (List.length (x :: l))) 0) as [E|E];
    [simpl in E; lia | reflexivity].
Qed.

Lemma add_num a b : add (VNum a) (VNum b) = VNum (a + b).
Proof. reflexivity. Qed.

Lemma add_not_nullish a b : nullish (add a b) = false.
Proof.
  unfold add.
  destruct (to_primitive a), (to_primitive b); simpl; try reflexivity;
    repeat match goal with |- context [if ?c then _ else _] => destruct c end;
    reflexivity.
Qed.

(** One repository: a repository that is [null] makes the callback
    reject (its handler reads [repo.name] too); any other leaves the
    counter alone when the request fails or the response has no data, and
    adds [data.length || 0] otherwise. *)
Lemma repoCommits_eq w username total repo :
  repoCommits w username total repo =
  if nullish repo then Throw TypeError
  else Normal
         match github_commits w (to_string username) (prop repo "name") with
         | RequestRejected => total
         | Response data =>
             if nullish data then total
             else add total (JS.or (prop data "length") (VNum 0))
         end.
Proof.
  unfold repoCommits, get. destruct (nullish repo); simpl; [reflexivity|].
  destruct (github_commits w (to_string username) (prop repo "name"))
    as [|data]; simpl; [reflexivity|].
  destruct (nullish data); reflexivity.
Qed.

Lemma sumCommits_throws w username repos :
  forall total, existsb nullish repos = true ->
  exists e, sumCommits w username total repos = Throw e.
Proof.
  induction repos as [|repo rest IH]; simpl; intros total H; [discriminate|].
  rewrite repoCommits_eq. destruct (nullish repo); simpl in *.
  - now exists TypeError.
  - now apply IH.
Qed.

Lemma sumCommits_not_nullish w username repos :
  forall total v, nullish total = false ->
  sumCommits w username total repos = Normal v -> nullish v = false.
Proof.
  induction repos as [|repo rest IH]; simpl; intros total v Ht H.
  - now inversion H; subst.
  - rewrite repoCommits_eq in H. destruct (nullish repo); simpl in H;
      [discriminate|].
    eapply IH; [|exact H].
    destruct (github_commits w (to_string username) (prop repo "name"))
      as [|data]; [assumption|].
    destruct (nullish data); [assumption|apply add_not_nullish].
Qed.

Lemma sumCommits_counts w username repos :
  forall t, Forall (commitListOrFailure w username) repos ->
  sumCommits w username (VNum t) repos =
  Normal (VNum (t + sumZ (map (commitCount w username) repos))).
Proof.
  induction repos as [|repo rest IH]; simpl; intros t H.
  - now rewrite Z.add_0_r.
  - inversion H as [|? ? [Hrepo Hcommits] Hrest]; subst.
    rewrite repoCommits_eq, Hrepo. unfold commitCount at 1.
    destruct (github_commits w (to_string username) (prop repo "name"))
      as [|data]; simpl.
    + rewrite IH by assumption. do 2 f_equal; lia.
    + destruct Hcommits as [commits ->]. simpl.
      rewrite or_num, add_num, IH by assumption. do 2 f_equal; lia.
Qed.

Lemma sumZ_perm l l' : Permutation l l' -> sumZ l = sumZ l'.
Proof.
  induction 1; simpl; lia.
Qed.

(** X8: the callbacks of [Promise.all] add to the one counter in the
    order in which their responses arrive; for repositories whose commit
    requests fail or bring lists, the counter ends the same in every
    order. *)
Lemma sumCommits_any_order w username repos arrival :
  Permutation repos arrival ->
  Forall (commitListOrFailure w username) repos ->
  forall t, sumCommits w username (VNum t) arrival =
            sumCommits w username (VNum t) repos.
Proof.
  intros Hperm Hall t.
  rewrite !sumCommits_counts;
    [|assumption|now apply (Permutation_Forall Hperm)].
  do 3 f_equal. apply sumZ_perm. symmetry. now apply Permutation_map.
Qed.

(** With every endpoint out of reach carol keeps her CodeChef score of 9
    and bob his GitHub score of 2. *)
Example silent_world_keeps_scores :
  fetchCodeChefStats silent_world (VStr "carol") (VNum 9) =
  Normal {| Stat.score := VNum 9 |} /\
  fetchGitHubStats silent_world (VStr "bob") (VNum 2) =
  Normal {| Stat.score := VNum 2 |}.
Proof. split; reflexivity. Qed.

(** alice's previous CodeChef score is 5 and her heat map has 8 entries:
    her score is 8. *)
Example alice_heatmap_8 :
  fetchCodeChefStats bob_world (VStr "alice") (VNum 5) =
  Normal {| Stat.score := VNum 8 |}.
Proof. reflexivity. Qed.

Lemma fetchGitHubStats_fails w username prevScore :
  github_fails username (github_repos w (to_string username)) = true ->
  fetchGitHubStats w username prevScore = Normal {| Stat.score := prevScore |}.
Proof.
  unfold github_fails, fetchGitHubStats.
  destruct (truthy username); cbn [negb orb]; [|reflexivity].
  destruct (github_repos w (to_string username)) as [|data];
    cbn [octokit_request bind try_catch]; [reflexivity|].
  destruct data as [| |b|n| |s|repos|props]; try reflexivity.
  - intros _. unfold get. cbn [nullish bind].
    destruct (truthy (prop (VStr s) "length")); reflexivity.
  - destruct repos as [|repo rest]; [reflexivity|]. intros H.
    unfold get. cbn [nullish bind].
    rewrite length_truthy. cbn [negb array_elems bind].
    destruct (sumCommits_throws w username _ (VNum 0) H) as [e ->].
    reflexivity.
  - intros _. unfold get. cbn [nullish bind].
    destruct (truthy (prop (VObj props) "length")); reflexivity.
Qed.

Lemma fetchGitHubStats_returns w username prevScore :
  exists r, fetchGitHubStats w username prevScore = Normal r /\
            (nullish (Stat.score r) = true -> Stat.score r = prevScore).
Proof.
  destruct (github_fails username (github_repos w (to_string username)))
    eqn:Hf.
  - rewrite (fetchGitHubStats_fails _ _ _ Hf). now eexists.
  - unfold github_fails in Hf. unfold fetchGitHubStats.
    destruct (truthy username); [|discriminate]. cbn [negb orb] in Hf.
    destruct (github_repos w (to_string username)) as [|data];
      [discriminate|].
    destruct data as [| |b|n| |s|repos|props]; try discriminate.
    destruct repos as [|repo rest]; [discriminate|].
    unfold get. cbn [negb nullish octokit_request bind].
    rewrite length_truthy. cbn [negb array_elems bind].
    destruct (sumCommits w username (VNum 0) (repo :: rest)) as [v|e] eqn:Hs;
      cbn [bind try_catch].
    + eexists; split; [reflexivity|]. simpl. intros Hn.
      now rewrite (sumCommits_not_nullish w username _ (VNum 0) v eq_refl Hs)
        in Hn.
    + now eexists.
Qed.

(** C2, as stated, fails: Codeforces reports a contribution of -5 for
    carol, whose previous score is 7; the fetcher returns -5, a negative
    score, on a response that is a success. *)
Lemma codeforces_negative_contribution :
  ~ meets_contract
      (fetchCodeforcesStats negative_contribution_world (VStr "carol") (VNum 7))
      (codeforces_fails
         (codeforces_api negative_contribution_world (to_string (VStr "carol"))))
      (VNum 7).
Proof.
  intros (r & Hr & _ & _ & _ & Hneg).
  vm_compute in Hr. inversion Hr; subst r. simpl in Hneg.
  specialize (Hneg (-5)%Z eq_refl). lia.
Qed.

(** C2 (amended): each of the four fetchers returns to its caller on
    every input, never raising; when the request is rejected, the body is
    not JSON, the payload is null, its success predicate is false or an
    access on the way to the score throws, it returns
    [{score: previousScore}]; and the score it returns is null or
    undefined only when it is [previousScore] itself. *)
Theorem fetchers_fall_back (w : World) (username prevScore : value) :
  falls_back (fetchCodeChefStats w username prevScore)
             (codechef_fails (codechef_api w (to_string username)))
             prevScore /\
  falls_back (fetchCodeforcesStats w username prevScore)
             (codeforces_fails (codeforces_api w (to_string username)))
             prevScore /\
  falls_back (fetchLeetCodeStats w username prevScore)
             (leetcode_fails (leetcode_api w (to_string username)))
             prevScore /\
  falls_back (fetchGitHubStats w username prevScore)
             (github_fails username (github_repos w (to_string username)))
             prevScore.
Proof.
  unfold falls_back. repeat split.
  - rewrite fetchCodeChefStats_eq. eexists; split; [reflexivity|].
    cbn [Stat.score].
    destruct (codechef_api w (to_string username)) as [| |data]; try tauto.
    destruct (codechef_fails (Body data)); [tauto|].
    split; [discriminate|]. now rewrite or_not_nullish.
  - rewrite fetchCodeforcesStats_eq. eexists; split; [reflexivity|].
    cbn [Stat.score].
    destruct (codeforces_api w (to_string username)) as [| |data]; try tauto.
    destruct (codeforces_fails (Body data)); [tauto|].
    split; [discriminate|]. now rewrite or_not_nullish.
  - rewrite fetchLeetCodeStats_eq. eexists; split; [reflexivity|].
    cbn [Stat.score].
    destruct (leetcode_api w (to_string username)) as [| |data]; try tauto.
    destruct (leetcode_fails (Body data)); [tauto|].
    split; [discriminate|]. now rewrite or_not_nullish.
  - destruct (fetchGitHubStats_returns w username prevScore) as (r & Hr & Hn).
    exists r. split; [assumption|]. split; [|assumption].
    intros Hf. rewrite (fetchGitHubStats_fails _ _ _ Hf) in Hr.
    now inversion Hr.
Qed.

(** C7: the GitHub fetcher returns [{score: previousScore}] at once when
    it is given no identifier, and when the repository list is empty;
    when the list is not empty it returns the sum, over the repositories,
    of the lengths of their commit lists, a repository whose commit-list
    request fails counting 0. *)
Theorem fetchGitHubStats_cases (w : World) (username prevScore : value) :
  (truthy username = false ->
   fetchGitHubStats w username prevScore =
   Normal {| Stat.score := prevScore |}) /\
  (github_repos w (to_string username) = Response (VArr []) ->
   fetchGitHubStats w username prevScore =
   Normal {| Stat.score := prevScore |}) /\
  (forall repo rest,
     truthy username = true ->
     github_repos w (to_string username) = Response (VArr (repo :: rest)) ->
     Forall (commitListOrFailure w username) (repo :: rest) ->
     fetchGitHubStats w username prevScore =
     Normal {| Stat.score :=
                 VNum (sumZ (map (commitCount w username) (repo :: rest))) |}).
Proof.
  split; [|split].
  - intros H. unfold fetchGitHubStats. now rewrite H.
  - intros H. apply fetchGitHubStats_fails. unfold github_fails.
    rewrite H. apply orb_true_r.
  - intros repo rest Hu Hrepos Hall. unfold fetchGitHubStats.
    rewrite Hu, Hrepos. unfold get.
    cbn [negb nullish octokit_request bind].
    rewrite length_truthy. cbn [negb array_elems bind].
    rewrite sumCommits_counts by assumption.
    reflexivity.
Qed.

(** bob owns two repositories with 3 and 5 commits: his score is 8. *)
Lemma bob_scores_8 :
  fetchGitHubStats bob_world (VStr "bob") (VNum 2) =
  Normal {| Stat.score := VNum 8 |}.
Proof.
  apply (proj2 (proj2 (fetchGitHubStats_cases bob_world (VStr "bob") (VNum 2)))
           (VObj [("name", VStr "site")]) [VObj [("name", VStr "tools")]]).
  - reflexivity.
  - reflexivity.
  - repeat constructor; simpl; eexists; reflexivity.
Defined.

(** C10: when Codeforces answers with status "OK" and an empty result
    list, reading the contribution of the first result throws, the handler
    catches it, and the fetcher returns [{score: previousScore}]. *)
Theorem codeforces_empty_result (w : World) (username prevScore data : value) :
  codeforces_api w (to_string username) = Body data ->
  prop data "status" = VStr "OK" ->
  prop data "result" = VArr [] ->
  (first <- elem (prop data "result") 0 ;; get first "contribution")
  = Throw TypeError /\
  fetchCodeforcesStats w username prevScore =
  Normal {| Stat.score := prevScore |}.
Proof.
  intros Hapi Hstatus Hresult. split.
  - rewrite Hresult. reflexivity.
  - rewrite fetchCodeforcesStats_eq, Hapi. unfold codeforces_fails.
    rewrite Hstatus, Hresult. cbn. now rewrite !orb_true_r.
Qed.

Lemma codeforces_empty_result_dave :
  fetchCodeforcesStats empty_result_world (VStr "dave") (VNum 42) =
  Normal {| Stat.score := VNum 42 |}.
Proof.
  apply (codeforces_empty_result empty_result_world (VStr "dave") (VNum 42)
           (VObj [("status", VStr "OK"); ("result", VArr [])]));
    reflexivity.
Defined.

(** ** The aggregation of one user *)

Lemma platformStats_returns w (p : platform) e prev :
  exists r,
    platformStats
      (match p with
       | Codechef => fetchCodeChefStats w
       | Codeforces => fetchCodeforcesStats w
       | Leetcode => fetchLeetCodeStats w
       | Github => fetchGitHubStats w
       end) e prev = Normal r /\
    (truthy (entry_username e) = false -> Stat.score r = prev).
Proof.
  unfold platformStats. destruct (truthy (entry_username e)).
  - destruct p.
    + rewrite fetchCodeChefStats_eq. eexists; split; [reflexivity|discriminate].
    + rewrite fetchCodeforcesStats_eq.
      eexists; split; [reflexivity|discriminate].
    + rewrite fetchLeetCodeStats_eq. eexists; split; [reflexivity|discriminate].
    + destruct (fetchGitHubStats_returns w (entry_username e) prev)
        as (r & -> & _).
      eexists; split; [reflexivity|discriminate].
  - eexists; split; reflexivity.
Qed.

(** The aggregation never throws; a platform without a registered
    username keeps [score || 0]; the total is the [+] of the four. *)
Lemma userScores_returns w user :
  exists upd,
    userScores w user = Normal upd /\
    (forall p, truthy (entry_username (entry p user)) = false ->
       updated_score p upd = JS.or (entry_score (entry p user)) (VNum 0)) /\
    total_score upd =
    add (add (add (codechef_score upd) (codeforces_score upd))
             (leetcode_score upd))
        (github_score upd).
Proof.
  unfold userScores.
  destruct (platformStats_returns w Codechef (codechef (platforms user))
              (JS.or (entry_score (codechef (platforms user))) (VNum 0)))
    as (r1 & -> & H1).
  destruct (platformStats_returns w Codeforces (codeforces (platforms user))
              (JS.or (entry_score (codeforces (platforms user))) (VNum 0)))
    as (r2 & -> & H2).
  destruct (platformStats_returns w Leetcode (leetcode (platforms user))
              (JS.or (entry_score (leetcode (platforms user))) (VNum 0)))
    as (r3 & -> & H3).
  destruct (platformStats_returns w Github (github (platforms user))
              (JS.or (entry_score (github (platforms user))) (VNum 0)))
    as (r4 & -> & H4).
  cbn [bind]. eexists; split; [reflexivity|]. split; [|reflexivity].
  intros [] Hp; cbn [updated_score codechef_score codeforces_score
                      leetcode_score github_score entry] in *; auto.
Qed.

Lemma lookup_update_by_id id f st :
  (forall u, _id (f u) = _id u) ->
  lookup_id id (update_by_id id f st) = option_map f (lookup_id id st).
Proof.
  intros Hf. unfold lookup_id.
  induction st as [|u rest IH]; simpl; [reflexivity|].
  destruct (Nat.eqb_spec (_id u) id) as [E|E]; simpl.
  - rewrite Hf. destruct (Nat.eqb_spec (_id u) id); [reflexivity|contradiction].
  - destruct (Nat.eqb_spec (_id u) id); [contradiction|assumption].
Qed.

Lemma lookup_id_some id st :
  In id (map _id st) -> exists doc, lookup_id id st = Some doc /\ _id doc = id.
Proof.
  unfold lookup_id. induction st as [|u rest IH]; simpl; [tauto|].
  intros [E|H].
  - exists u. destruct (Nat.eqb_spec (_id u) id); [auto|contradiction].
  - destruct (Nat.eqb_spec (_id u) id); [now exists u|auto].
Qed.

Section Aggregation.

(** The schema leaves a number written to a number field as it is. *)
Variable db : Schema.
Hypothesis castNumber_number : forall n, castNumber db (VNum n) = Some n.

(** C3 (amended): when the four scores an aggregation results in are
    the integers a, b, c and d, these and their partial sums being safe
    integers, the update writes a + b + c + d as [totalScore], next to
    the four scores themselves. *)
Theorem totalScore_is_sum (w : World) (st : Store.t) (user : User)
        (upd : ScoreUpdate) (a b c d : Z) :
  In (_id user) (map _id st) ->
  userScores w user = Normal upd ->
  codechef_score upd = VNum a ->
  codeforces_score upd = VNum b ->
  leetcode_score upd = VNum c ->
  github_score upd = VNum d ->
  safe_integer a -> safe_integer b -> safe_integer c -> safe_integer d ->
  safe_integer (a + b) -> safe_integer (a + b + c) ->
  safe_integer (a + b + c + d) ->
  total_score upd = VNum (a + b + c + d) /\
  exists doc,
    lookup_id (_id user) (updateUser db w st user) = Some doc /\
    totalScore doc = (a + b + c + d)%Z /\
    entry_score (codechef (platforms doc)) = VNum a /\
    entry_score (codeforces (platforms doc)) = VNum b /\
    entry_score (leetcode (platforms doc)) = VNum c /\
    entry_score (github (platforms doc)) = VNum d.
Proof.
  intros Hin Hupd Ha Hb Hc Hd _ _ _ _ _ _ _.
  destruct (userScores_returns w user) as (upd' & Hupd' & _ & Htotal).
  rewrite Hupd in Hupd'. inversion Hupd'; subst upd'. clear Hupd'.
  rewrite Ha, Hb, Hc, Hd in Htotal. rewrite !add_num in Htotal.
  split; [assumption|].
  unfold updateUser, findByIdAndUpdate_scores. rewrite Hupd. cbn [bind].
  rewrite Ha, Hb, Hc, Hd, Htotal, !castNumber_number.
  rewrite lookup_update_by_id by reflexivity.
  destruct (lookup_id_some _ _ Hin) as (doc & -> & _).
  eexists; split; [reflexivity|]. repeat split.
Qed.

(** C4: a platform for which the user has no registered username (none,
    or an empty one) and a stored score n has the stored score n after
    the aggregation of that user: it is 0 afterwards only when it was 0
    before. *)
Theorem carry_forward (w : World) (st : Store.t) (user : User)
        (p : platform) (n : Z) :
  lookup_id (_id user) st = Some user ->
  truthy (entry_username (entry p user)) = false ->
  entry_score (entry p user) = VNum n ->
  exists doc,
    lookup_id (_id user) (updateUser db w st user) = Some doc /\
    entry_score (entry p doc) = VNum n /\
    (entry_score (entry p doc) = VNum 0 -> n = 0%Z).
Proof.
  intros Hstored Hname Hscore.
  destruct (userScores_returns w user) as (upd & Hupd & Hcarry & _).
  specialize (Hcarry p Hname). rewrite Hscore, or_num in Hcarry.
  unfold updateUser, findByIdAndUpdate_scores. rewrite Hupd. cbn [bind].
  destruct (castNumber db (codechef_score upd)) as [a|] eqn:Ea;
    [|exists user; split; [assumption|]; split; [assumption|congruence]].
  destruct (castNumber db (codeforces_score upd)) as [b|] eqn:Eb;
    [|exists user; split; [assumption|]; split; [assumption|congruence]].
  destruct (castNumber db (leetcode_score upd)) as [c|] eqn:Ec;
    [|exists user; split; [assumption|]; split; [assumption|congruence]].
  destruct (castNumber db (github_score upd)) as [d|] eqn:Ed;
    [|exists user; split; [assumption|]; split; [assumption|congruence]].
  destruct (castNumber db (total_score upd)) as [t|] eqn:Et;
    [|exists user; split; [assumption|]; split; [assumption|congruence]].
  rewrite lookup_update_by_id by reflexivity. rewrite Hstored.
  eexists; split; [reflexivity|].
  assert (E : entry_score (entry p (with_scores a b c d t user)) = VNum n).
  { destruct p; cbn [updated_score] in Hcarry;
      rewrite Hcarry, castNumber_number in *; cbn; congruence. }
  split; [assumption|]. rewrite E. congruence.
Qed.

End Aggregation.

Lemma alice_total_15 :
  exists doc,
    lookup_id 1 (updateUser strict_schema bob_world sample_store alice)
    = Some doc /\ totalScore doc = 15%Z.
Proof.
  destruct (totalScore_is_sum strict_schema (fun n => eq_refl)
              bob_world sample_store alice
              {| codechef_score := VNum 8; codeforces_score := VNum 3;
                 leetcode_score := VNum 4; github_score := VNum 0;
                 total_score := VNum 15 |} 8 3 4 0)
    as (_ & doc & Hdoc & Htotal & _);
    try reflexivity; try (unfold safe_integer, MAX_SAFE_INTEGER; lia).
  - simpl; auto.
  - exists doc. split; assumption.
Defined.

(** C3, as stated, fails when a platform answers with a text: LeetCode's
    "12" for dave, who has no other platform, makes the total the text
    "0120"; a schema that casts such texts writes the scores 0, 0, 12
    and 0, and the total 120. *)
Lemma text_score_total_is_not_sum :
  (forall n, castNumber casting_schema (VNum n) = Some n) /\
  exists doc,
    lookup_id 4 (updateUser casting_schema text_world [dave] dave)
    = Some doc /\
    entry_score (entry Codechef doc) = VNum 0 /\
    entry_score (entry Codeforces doc) = VNum 0 /\
    entry_score (entry Leetcode doc) = VNum 12 /\
    entry_score (entry Github doc) = VNum 0 /\
    totalScore doc = 120%Z /\
    totalScore doc <> (0 + 0 + 12 + 0)%Z.
Proof.
  split; [reflexivity|].
  eexists. split; [vm_compute; reflexivity|].
  repeat split. discriminate.
Qed.

Lemma alice_codeforces_carried :
  exists doc,
    lookup_id 1 (updateUser strict_schema bob_world sample_store alice)
    = Some doc /\ entry_score (entry Codeforces doc) = VNum 3.
Proof.
  destruct (carry_forward strict_schema (fun n => eq_refl)
              bob_world sample_store alice Codeforces 3)
    as (doc & Hdoc & Hscore & _).
  - reflexivity.
  - reflexivity.
  - reflexivity.
  - exists doc. split; assumption.
Defined.

(** alice has no GitHub entry, hence no stored score for it: the
    aggregation writes 0. *)
Example alice_github_written_0 :
  option_map (fun doc => entry_score (entry Github doc))
    (lookup_id 1 (updateUser strict_schema bob_world sample_store alice))
  = Some (VNum 0).
Proof. reflexivity. Qed.

(** ** The batch scheduler *)

Lemma ceil_div_bounds (L B : nat) :
  (0 < B)%nat -> (L <= ceil_div L B * B < L + B)%nat.
Proof.
  intros HB. unfold ceil_div.
  pose proof (Nat.div_mod_eq (L + B - 1) B) as E.
  assert (U : ((L + B - 1) mod B < B)%nat)
    by (apply Nat.mod_upper_bound; lia).
  nia.
Qed.

Lemma ceil_unique (m B a b : nat) :
  (m <= a * B < m + B)%nat -> (m <= b * B < m + B)%nat -> a = b.
Proof.
  intros Ha Hb. destruct (Nat.lt_trichotomy a b) as [H|[H|H]]; nia.
Qed.

Lemma ceil_div_step (m B : nat) :
  (0 < B)%nat -> (0 < m)%nat -> ceil_div m B = S (ceil_div (m - B) B).
Proof.
  intros HB Hm.
  pose proof (ceil_div_bounds m B HB) as H1.
  pose proof (ceil_div_bounds (m - B) B HB) as H2.
  apply (ceil_unique m B); [assumption|].
  destruct (Nat.le_gt_cases B m) as [H|H]; [nia|].
  replace (m - B)%nat with 0%nat in * by lia.
  assert (ceil_div 0 B = 0)%nat by nia. nia.
Qed.

Lemma ceil_div_0 (B : nat) : (0 < B)%nat -> ceil_div 0 B = 0%nat.
Proof.
  intros HB. pose proof (ceil_div_bounds 0 B HB). nia.
Qed.

Lemma scheduleBatches_enough_fuel (users : list User) (B : nat) (I : Q) :
  (0 < B)%nat ->
  forall fuel i, (List.length users - i <= fuel)%nat ->
  scheduleBatches fuel users B I i =
  Some (batchTimers (ceil_div (List.length users - i) B) users B I i).
Proof.
  intros HB. induction fuel as [|fuel IH]; intros i Hfuel.
  - simpl. destruct (Nat.ltb_spec i (List.length users)); [lia|].
    replace (List.length users - i)%nat with 0%nat by lia.
    now rewrite ceil_div_0.
  - simpl. destruct (Nat.ltb_spec i (List.length users)) as [Hi|Hi].
    + rewrite IH by lia.
      rewrite (ceil_div_step (List.length users - i) B) by lia.
      replace (List.length users - (i + B))%nat
        with (List.length users - i - B)%nat by lia.
      reflexivity.
    + replace (List.length users - i)%nat with 0%nat by lia.
      now rewrite ceil_div_0.
Qed.

(** Without a positive batch size the loop never ends on a list that has
    users. *)
Lemma scheduleBatches_zero_diverges (users : list User) (I : Q) :
  users <> [] -> forall fuel, scheduleBatches fuel users 0 I 0 = None.
Proof.
  intros Hne. induction fuel as [|fuel IH]; simpl;
    destruct users; try contradiction; simpl in *; [reflexivity|].
  now rewrite IH.
Qed.

Lemma length_batchTimers n users B I i :
  List.length (batchTimers n users B I i) = n.
Proof.
  revert i. induction n as [|n IH]; intros i; simpl; [reflexivity|].
  now rewrite IH.
Qed.

Lemma nth_error_batchTimers n users B I :
  forall i k, (k < n)%nat ->
  nth_error (batchTimers n users B I i) k =
  Some (batchTimer users B I (i + k * B)).
Proof.
  induction n as [|n IH]; intros i k Hk; [lia|].
  destruct k as [|k]; simpl.
  - now rewrite Nat.add_0_r.
  - rewrite IH by lia. do 2 f_equal. lia.
Qed.

Lemma firstn_add {A} (a b : nat) (l : list A) :
  firstn (a + b) l = firstn a l ++ firstn b (skipn a l).
Proof.
  revert l. induction a as [|a IH]; intros l; simpl; [reflexivity|].
  destruct l as [|x l]; simpl.
  - now rewrite firstn_nil.
  - now rewrite IH.
Qed.

Lemma slice_firstn {A} (l : list A) (i B : nat) :
  slice l i (i + B) = firstn B (skipn i l).
Proof. unfold slice. f_equal. lia. Qed.

Lemma concat_batchTimers n users B I :
  forall i,
  List.concat (map batch_users (batchTimers n users B I i)) =
  firstn (n * B) (skipn i users).
Proof.
  induction n as [|n IH]; intros i; simpl; [reflexivity|].
  rewrite IH. unfold batch_users at 1. simpl.
  rewrite slice_firstn, firstn_add, skipn_skipn.
  rewrite (Nat.add_comm B i). reflexivity.
Qed.

Lemma length_slice {A} (l : list A) (i B : nat) :
  List.length (slice l i (i + B)) = Nat.min B (List.length l - i).
Proof.
  rewrite slice_firstn, length_firstn, length_skipn. reflexivity.
Qed.

(** C5: for a batch size B > 0 the loop ends (any fuel from the length of
    the list on is enough) having scheduled ceil(L / B) batches; the k-th
    is [users.slice(k * B, k * B + B)]; the batches one after another are
    the list of users itself; every batch but the last has B users and
    the last has between 1 and B. *)
Theorem batches_partition (users : list User) (B : nat) (I : Q) :
  (0 < B)%nat ->
  exists timers,
    (forall fuel, (List.length users <= fuel)%nat ->
                  scheduleBatches fuel users B I 0 = Some timers) /\
    let batches := map batch_users timers in
    List.length batches = ceil_div (List.length users) B /\
    (List.length users <= ceil_div (List.length users) B * B
                       < List.length users + B)%nat /\
    List.concat batches = users /\
    (forall k, (k < List.length batches)%nat ->
               nth k batches [] = slice users (k * B) (k * B + B)) /\
    (forall k, (S k < List.length batches)%nat ->
               List.length (nth k batches []) = B) /\
    (forall k, S k = List.length batches ->
               (0 < List.length (nth k batches []) <= B)%nat).
Proof.
  intros HB.
  pose proof (ceil_div_bounds (List.length users) B HB) as Hceil.
  set (n := ceil_div (List.length users) B) in *.
  assert (Hnth : forall k, (k < n)%nat ->
            nth k (map batch_users (batchTimers n users B I 0)) [] =
            slice users (k * B) (k * B + B)).
  { intros k Hk. apply nth_error_nth.
    rewrite nth_error_map, nth_error_batchTimers by assumption.
    reflexivity. }
  exists (batchTimers n users B I 0). split.
  { intros fuel Hfuel.
    rewrite (scheduleBatches_enough_fuel users B I HB) by lia.
    now rewrite Nat.sub_0_r. }
  cbv zeta. rewrite length_map, length_batchTimers.
  split; [reflexivity|]. split; [assumption|]. split; [|split; [|split]].
  - rewrite concat_batchTimers. simpl.
    apply firstn_all2. lia.
  - assumption.
  - intros k Hk. rewrite Hnth by lia. rewrite length_slice. nia.
  - intros k Hk. rewrite Hnth by lia. rewrite length_slice. nia.
Qed.

Lemma fifteen_users_two_batches :
  exists timers,
    scheduleBatches 15 fifteen_users 10 60000 0 = Some timers /\
    List.length (map batch_users timers) = 2%nat /\
    List.concat (map batch_users timers) = fifteen_users.
Proof.
  destruct (batches_partition fifteen_users 10 60000)
    as (timers & Hrun & Hlen & _ & Hcat & _).
  - lia.
  - exists timers. split; [apply Hrun; simpl; lia|].
    split; [exact Hlen | exact Hcat].
Defined.

(** ** The delays, in doubles *)

Lemma holds_from_spec (ok : Z -> bool) (fuel : nat) :
  forall n k,
  holds_from ok fuel n = true -> (n <= k < n + Z.of_nat fuel)%Z ->
  ok k = true.
Proof.
  induction fuel as [|fuel IH]; intros n k H Hk; [lia|].
  cbn [holds_from] in H. destruct (ok n) eqn:E; [|discriminate].
  destruct (Z.eq_dec k n) as [->|Hne]; [assumption|].
  apply (IH (n + 1)%Z); [assumption|lia].
Qed.

(** The check of the delay of the rank recomputation, for every number
    of users up to 357913. *)
Lemma ranks_delay_checked :
  holds_from ranks_delay_ok (Z.to_nat 357914) 0 = true.
Proof. vm_compute. reflexivity. Qed.

(** The check of the delay of a batch, for every batch of up to 357913
    users. *)
Lemma batch_delay_checked :
  holds_from batch_delay_ok (Z.to_nat 35792) 0 = true.
Proof. vm_compute. reflexivity. Qed.

Lemma ranks_delay_ok_upto (L : Z) :
  (0 <= L <= 357913)%Z -> ranks_delay_ok L = true.
Proof.
  intros H. apply (holds_from_spec _ _ 0%Z L ranks_delay_checked).
  rewrite Z2Nat.id; lia.
Qed.

Lemma batch_delay_ok_upto (k : Z) :
  (0 <= k <= 35791)%Z -> batch_delay_ok k = true.
Proof.
  intros H. apply (holds_from_spec _ _ 0%Z k batch_delay_checked).
  rewrite Z2Nat.id; lia.
Qed.

Lemma to_Q_finite (f : float) (m : positive) (e : Z) :
  Prim2SF f = S754_finite false m e -> (e < 0)%Z ->
  Double.to_Q f = Zpos m # Z.to_pos (2 ^ (- e)).
Proof.
  intros H He. unfold Double.to_Q. rewrite H.
  destruct (Z.leb_spec 0 e); [lia|reflexivity].
Qed.

Lemma pos_pow2 (s : Z) : (0 <= s)%Z -> Zpos (Z.to_pos (2 ^ s)) = (2 ^ s)%Z.
Proof.
  intros Hs. apply Z2Pos.id. apply Z.pow_pos_nonneg; lia.
Qed.

Lemma timer_ms_comp (x y : Q) : x == y -> timer_ms x = timer_ms y.
Proof.
  intros H. unfold timer_ms.
  rewrite (Qfloor_comp x y H), (Qleb_comp 1 1 (Qeq_refl 1) x y H).
  now rewrite (Qleb_comp x y H _ _ (Qeq_refl (inject_Z TIMEOUT_MAX))).
Qed.

Lemma timer_ms_Z (z : Z) :
  timer_ms (inject_Z z) =
  if ((1 <=? z) && (z <=? TIMEOUT_MAX))%Z then z else 1%Z.
Proof.
  unfold timer_ms, Qle_bool. cbn [Qnum Qden inject_Z].
  rewrite Qfloor_Z, !Z.mul_1_r. reflexivity.
Qed.

(** The time of a delay m / p that is within 1 of the whole number T. *)
Lemma timer_ms_near (m p : positive) (T : Z) :
  (2 <= T < TIMEOUT_MAX)%Z ->
  ((T - 1) * Zpos p <= Zpos m < (T + 1) * Zpos p)%Z ->
  (T - 1 <= timer_ms (Zpos m # p) <= T)%Z.
Proof.
  intros HT Hm. unfold timer_ms, Qle_bool, TIMEOUT_MAX in *.
  cbn [Qnum Qden inject_Z Qfloor].
  assert (H1 : (1 * Zpos p <=? Zpos m * 1)%Z = true)
    by (apply Z.leb_le; nia).
  assert (H2 : (Zpos m * 1 <=? 2147483647 * Zpos p)%Z = true)
    by (apply Z.leb_le; nia).
  rewrite H1, H2. cbn [andb]. split.
  - apply Z.div_le_lower_bound; lia.
  - assert (Zpos m / Zpos p < T + 1)%Z; [|lia].
    apply Z.div_lt_upper_bound; lia.
Qed.

(** The delay of the rank recomputation, for the batch size and the
    interval of the route. *)
Lemma ranksDelay_near (users : list User) :
  within_timeout users ->
  let T := (6000 * Z.of_nat (List.length users) + 5000)%Z in
  let d := ranksDelay users batchSize updateInterval in
  inject_Z T - (1 # 1048576) <= d /\
  d <= inject_Z T + (1 # 1048576) /\
  ((Z.of_nat (List.length users) mod 10 = 0)%Z -> d == inject_Z T) /\
  (T - 1 <= timer_ms d <= T)%Z.
Proof.
  intros HL T d. unfold within_timeout in HL.
  set (L := Z.of_nat (List.length users)) in *.
  assert (Hok : ranks_delay_ok L = true)
    by (apply ranks_delay_ok_upto; subst L; lia).
  assert (Ed : d = Double.to_Q (ranksDouble L)) by reflexivity.
  unfold ranks_delay_ok in Hok. fold T in Hok.
  destruct (Prim2SF (ranksDouble L)) as [| | |[|] m e] eqn:E;
    try discriminate.
  apply andb_prop in Hok. destruct Hok as [Hok Hdiv].
  apply andb_prop in Hok. destruct Hok as [He Hnear].
  apply Z.ltb_lt in He. apply Z.leb_le in Hnear.
  rewrite (to_Q_finite _ _ _ E He) in Ed.
  rewrite !Z.shiftl_mul_pow2 in * by lia.
  pose proof (pos_pow2 (- e) ltac:(lia)) as Hp.
  set (p := Z.to_pos (2 ^ (- e))) in *. rewrite <- Hp in *.
  rewrite Ed. clear Ed d E.
  assert (HT : (5000 <= T <= 2147483000)%Z) by (subst T L; lia).
  split; [|split; [|split]].
  - unfold Qle, Qminus, Qplus, Qopp, inject_Z. cbn [Qnum Qden].
    rewrite Pos2Z.inj_mul. lia.
  - unfold Qle, Qplus, inject_Z. cbn [Qnum Qden].
    rewrite Pos2Z.inj_mul. lia.
  - intros Hmod. apply Z.eqb_eq in Hmod. rewrite Hmod in Hdiv.
    cbn [negb orb] in Hdiv. apply Z.eqb_eq in Hdiv.
    unfold Qeq, inject_Z. cbn [Qnum Qden]. lia.
  - apply timer_ms_near; unfold TIMEOUT_MAX; lia.
Qed.

(** The delay of the batch that starts at index 10 k. *)
Lemma batchDelay_exact (k : nat) :
  (Z.of_nat k <= 35791)%Z ->
  batchDelay (k * batchSize) batchSize updateInterval
  == inject_Z (60000 * Z.of_nat k).
Proof.
  intros Hk. unfold batchDelay.
  replace (Z.of_nat (k * batchSize)) with (10 * Z.of_nat k)%Z
    by (unfold batchSize; lia).
  pose proof (batch_delay_ok_upto (Z.of_nat k) ltac:(lia)) as Hok.
  unfold batch_delay_ok in Hok.
  destruct (Prim2SF (quotientDelay (10 * Z.of_nat k) batchSize
                                   updateInterval))
    as [z| | |[|] m e] eqn:E; try discriminate.
  - apply Z.eqb_eq in Hok. unfold Double.to_Q. rewrite E, Hok. reflexivity.
  - apply andb_prop in Hok. destruct Hok as [He Hm].
    apply Z.ltb_lt in He. apply Z.eqb_eq in Hm.
    rewrite (to_Q_finite _ _ _ E He).
    rewrite Z.shiftl_mul_pow2 in Hm by lia.
    unfold Qeq, inject_Z. cbn [Qnum Qden].
    rewrite pos_pow2 by lia. lia.
Qed.

Lemma batch_timer_ms (k : nat) :
  (Z.of_nat k <= 35791)%Z ->
  timer_ms (batchDelay (k * batchSize) batchSize updateInterval)
  = batch_ms (Z.of_nat k).
Proof.
  intros Hk.
  rewrite (timer_ms_comp _ _ (batchDelay_exact k Hk)), timer_ms_Z.
  unfold batch_ms, TIMEOUT_MAX.
  destruct (Z.eqb_spec (Z.of_nat k) 0) as [E|E].
  - rewrite E. reflexivity.
  - assert (H1 : (1 <=? 60000 * Z.of_nat k)%Z = true)
      by (apply Z.leb_le; lia).
    assert (H2 : (60000 * Z.of_nat k <=? 2147483647)%Z = true)
      by (apply Z.leb_le; lia).
    now rewrite H1, H2.
Qed.

(** The batches of a list of at most 357920 users. *)
Lemma batches_within (users : list User) (k : nat) :
  (Z.of_nat (List.length users) <= 357920)%Z ->
  (k < ceil_div (List.length users) batchSize)%nat ->
  (Z.of_nat k <= 35791)%Z /\
  (10 * Z.of_nat k < Z.of_nat (List.length users))%Z.
Proof.
  intros HL Hk.
  pose proof (ceil_div_bounds (List.length users) batchSize
                ltac:(unfold batchSize; lia)) as H.
  unfold batchSize in *. lia.
Qed.

Lemma within_batches (users : list User) :
  within_timeout users -> (Z.of_nat (List.length users) <= 357920)%Z.
Proof. unfold within_timeout. lia. Qed.

Lemma nth_batch (users : list User) (k : nat) (t : Timer) :
  nth_error (batchTimers (ceil_div (List.length users) batchSize) users
                         batchSize updateInterval 0) k = Some t ->
  (k < ceil_div (List.length users) batchSize)%nat /\
  t = batchTimer users batchSize updateInterval (k * batchSize).
Proof.
  intros Hk.
  assert (Hlt : (k < ceil_div (List.length users) batchSize)%nat).
  { rewrite <- (length_batchTimers (ceil_div (List.length users) batchSize)
                                   users batchSize updateInterval 0).
    apply nth_error_Some. congruence. }
  split; [assumption|].
  rewrite nth_error_batchTimers in Hk by assumption.
  now inversion Hk.
Qed.

(** Every batch is due before the rank recomputation. *)
Lemma batch_before_ranks (users : list User) (k : nat) (t : Timer) :
  within_timeout users ->
  nth_error (batchTimers (ceil_div (List.length users) batchSize) users
                         batchSize updateInterval 0) k = Some t ->
  (timer_ms (delay t)
   < timer_ms (delay (ranksTimer users batchSize updateInterval)))%Z.
Proof.
  intros HL Hk. destruct (nth_batch users k t Hk) as [Hlt ->].
  destruct (batches_within users k (within_batches users HL) Hlt)
    as [H1 H2].
  cbn [batchTimer ranksTimer delay]. rewrite (batch_timer_ms k H1).
  destruct (ranksDelay_near users HL) as (_ & _ & _ & Hms).
  unfold batch_ms. destruct (Z.eqb_spec (Z.of_nat k) 0); lia.
Qed.

Lemma sorted_by_index {A} (R : A -> A -> Prop) (l : list A) :
  (forall i j a b, (i < j)%nat ->
     nth_error l i = Some a -> nth_error l j = Some b -> R a b) ->
  StronglySorted R l.
Proof.
  induction l as [|x l IH]; intros H; constructor.
  - apply IH. intros i j a b Hij Ha Hb.
    apply (H (S i) (S j) a b); [lia|assumption|assumption].
  - apply Forall_forall. intros b Hin.
    apply In_nth_error in Hin. destruct Hin as [j Hj].
    apply (H 0%nat (S j) x b); [lia|reflexivity|assumption].
Qed.

Lemma sorted_snoc (l : list Timer) (t : Timer) :
  StronglySorted earlier l -> Forall (fun t' => earlier t' t) l ->
  StronglySorted earlier (l ++ [t]).
Proof.
  induction 1 as [|x l Hl IH Hall]; intros Hlast; simpl.
  - repeat constructor.
  - inversion Hlast; subst. constructor; [now apply IH|].
    apply Forall_app. split; [assumption|]. now constructor.
Qed.

(** The batch timers are registered in the order of their times. *)
Lemma batch_timers_sorted (users : list User) :
  (Z.of_nat (List.length users) <= 357920)%Z ->
  StronglySorted earlier
    (batchTimers (ceil_div (List.length users) batchSize) users
                 batchSize updateInterval 0).
Proof.
  intros HL. apply sorted_by_index. intros i j a b Hij Ha Hb.
  destruct (nth_batch users i a Ha) as [Hi ->].
  destruct (nth_batch users j b Hb) as [Hj ->].
  destruct (batches_within users i HL Hi) as [Hi' _].
  destruct (batches_within users j HL Hj) as [Hj' _].
  unfold earlier. cbn [batchTimer delay].
  rewrite (batch_timer_ms i Hi'), (batch_timer_ms j Hj').
  unfold batch_ms.
  destruct (Z.eqb_spec (Z.of_nat i) 0);
    destruct (Z.eqb_spec (Z.of_nat j) 0); lia.
Qed.

(** So are the timers of a refresh, within the limit of the timers. *)
Lemma refresh_timers_sorted (users : list User) :
  within_timeout users ->
  StronglySorted earlier
    (batchTimers (ceil_div (List.length users) batchSize) users
                 batchSize updateInterval 0
     ++ [ranksTimer users batchSize updateInterval]).
Proof.
  intros HL. apply sorted_snoc.
  - now apply batch_timers_sorted, within_batches.
  - apply Forall_forall. intros t Hin.
    apply In_nth_error in Hin. destruct Hin as [k Hk].
    unfold earlier. apply Z.lt_le_incl.
    now apply (batch_before_ranks users k t).
Qed.

Lemma fire_order_sorted (timers : list Timer) :
  StronglySorted earlier timers -> fire_order timers = timers.
Proof.
  induction 1 as [|t rest Hrest IH Hall]; simpl; [reflexivity|].
  rewrite IH. destruct rest as [|t' rest']; simpl; [reflexivity|].
  inversion Hall as [|? ? Hle _]; subst. unfold earlier in Hle.
  apply Z.leb_le in Hle. now rewrite Hle.
Qed.

Lemma refreshLeaderboard_timers (users : list User) (fuel : nat) :
  (List.length users <= fuel)%nat ->
  refreshLeaderboard fuel users =
  Some (batchTimers (ceil_div (List.length users) batchSize) users
                    batchSize updateInterval 0
        ++ [ranksTimer users batchSize updateInterval]).
Proof.
  intros Hfuel. unfold refreshLeaderboard, scheduleRefresh.
  rewrite (scheduleBatches_enough_fuel users batchSize updateInterval)
    by (unfold batchSize; lia).
  now rewrite Nat.sub_0_r.
Qed.

(** ** The delay of the rank recomputation *)

(** C6, as stated, fails: 15 users in batches of 10 are 2 batches, which
    by the claim puts the rank recomputation at 2 x 60000 + 5000 = 125000
    ms; the route schedules it at 15 / 10 x 60000 + 5000 = 95000 ms. *)
Lemma fifteen_users_ranks_delay :
  claimedRanksDelay fifteen_users batchSize updateInterval == 125000 /\
  ranksDelay fifteen_users batchSize updateInterval == 95000 /\
  ~ ranksDelay fifteen_users batchSize updateInterval
    == claimedRanksDelay fifteen_users batchSize updateInterval.
Proof.
  split; [reflexivity|]. split; [vm_compute; reflexivity|].
  intros H. vm_compute in H. discriminate H.
Qed.

(** With 41 users the delay is the double next below 251000, and the
    timer is due in the millisecond before. *)
Example forty_one_users_ranks_delay :
  ranksDelay (map numbered_user (seq 1 41)) batchSize updateInterval
  == 8624294330367999 # 34359738368 /\
  timer_ms (ranksDelay (map numbered_user (seq 1 41)) batchSize
                       updateInterval) = 250999%Z.
Proof. split; vm_compute; reflexivity. Qed.

(** From 357914 users on the delay is more than [setTimeout] takes, and
    the rank recomputation is due after 1 ms. *)
Example ranks_delay_overflows :
  Double.to_Q (ranksDouble 357914) == 2147489000 /\
  timer_ms (Double.to_Q (ranksDouble 357914)) = 1%Z.
Proof. split; vm_compute; reflexivity. Qed.

(** C6 (amended): for the route's batches of 10 and interval of 60000 ms
    and a list of L <= 357913 users, the rank recomputation is the timer
    registered after the ceil(L / 10) batch timers.  Its delay is the
    double (L / 10) x 60000 + 5000, which is within 2^-20 ms of 6000 L +
    5000, so that it is due 6000 L + 5000 ms or the millisecond before
    that after scheduling begins; the k-th batch is set to 60000 k ms
    and is due strictly before it.  The delay is (numberOfBatches x
    60000) + 5000 when 10 divides L and less than that when not. *)
Theorem ranks_delay_in_doubles (users : list User) :
  within_timeout users ->
  let L := Z.of_nat (List.length users) in
  let ranks := ranksTimer users batchSize updateInterval in
  exists timers,
    (forall fuel, (List.length users <= fuel)%nat ->
       refreshLeaderboard fuel users = Some (timers ++ [ranks])) /\
    List.length timers = ceil_div (List.length users) batchSize /\
    inject_Z (6000 * L + 5000) - (1 # 1048576) <= delay ranks /\
    delay ranks <= inject_Z (6000 * L + 5000) + (1 # 1048576) /\
    (6000 * L + 4999 <= timer_ms (delay ranks) <= 6000 * L + 5000)%Z /\
    (forall k t, nth_error timers k = Some t ->
       delay t == inject_Z (60000 * Z.of_nat k) /\
       (timer_ms (delay t) < timer_ms (delay ranks))%Z) /\
    ((L mod 10 = 0)%Z ->
       delay ranks == claimedRanksDelay users batchSize updateInterval) /\
    ((L mod 10 <> 0)%Z ->
       delay ranks < claimedRanksDelay users batchSize updateInterval).
Proof.
  intros HL L ranks.
  destruct (ranksDelay_near users HL) as (Hlow & Hhigh & Hexact & Hms).
  fold L in Hlow, Hhigh, Hexact, Hms.
  pose proof (ceil_div_bounds (List.length users) batchSize
                ltac:(unfold batchSize; lia)) as Hceil.
  exists (batchTimers (ceil_div (List.length users) batchSize) users
                      batchSize updateInterval 0).
  split; [|split; [|split; [|split; [|split; [|split; [|split]]]]]].
  - intros fuel Hfuel. now apply refreshLeaderboard_timers.
  - apply length_batchTimers.
  - exact Hlow.
  - exact Hhigh.
  - cbn [ranks ranksTimer delay]. lia.
  - intros k t Hk. split.
    + destruct (nth_batch users k t Hk) as [Hlt ->].
      destruct (batches_within users k (within_batches users HL) Hlt)
        as [H1 _].
      cbn [batchTimer delay]. now apply batchDelay_exact.
    + now apply (batch_before_ranks users k t).
  - intros Hmod. cbn [ranks ranksTimer delay].
    rewrite (Hexact Hmod). unfold claimedRanksDelay, updateInterval.
    unfold Qeq, Qplus, Qmult, inject_Z. cbn [Qnum Qden].
    pose proof (Z.div_mod L 10 ltac:(lia)) as Hdm. rewrite Hmod in Hdm.
    unfold batchSize in *. subst L. lia.
  - intros Hmod. cbn [ranks ranksTimer delay].
    eapply Qle_lt_trans; [exact Hhigh|].
    unfold claimedRanksDelay, updateInterval.
    unfold Qlt, Qplus, Qmult, inject_Z. cbn [Qnum Qden].
    unfold batchSize in *. subst L.
    assert (Z.of_nat (List.length users)
            <> Z.of_nat (ceil_div (List.length users) 10) * 10)%Z
      by (intros E; apply Hmod; rewrite E; apply Z.mod_mul; lia).
    lia.
Qed.

Lemma twenty_users_ranks_delay :
  ranksDelay twenty_users batchSize updateInterval
  == claimedRanksDelay twenty_users batchSize updateInterval.
Proof.
  destruct (ranks_delay_in_doubles twenty_users)
    as (timers & _ & _ & _ & _ & _ & _ & Hdiv & _).
  - unfold within_timeout. cbn. lia.
  - apply Hdiv. reflexivity.
Defined.

(** ** The store *)

Lemma update_absent id f st :
  ~ In id (map _id st) -> update_by_id id f st = st.
Proof.
  induction st as [|u rest IH]; simpl; intros H; [reflexivity|].
  destruct (Nat.eqb_spec (_id u) id) as [E|E]; [tauto|].
  rewrite IH; tauto.
Qed.

Lemma map_absent id (f : User -> User) st :
  ~ In id (map _id st) ->
  map (fun u => if Nat.eqb (_id u) id then f u else u) st = st.
Proof.
  induction st as [|u rest IH]; simpl; intros H; [reflexivity|].
  destruct (Nat.eqb_spec (_id u) id) as [E|E]; [tauto|].
  rewrite IH; tauto.
Qed.

(** With one document per id, the update of the first document of an id
    is the update of all of them. *)
Lemma update_by_id_map id f st :
  NoDup (map _id st) ->
  update_by_id id f st =
  map (fun u => if Nat.eqb (_id u) id then f u else u) st.
Proof.
  induction st as [|u rest IH]; simpl; intros H; [reflexivity|].
  inversion H as [|? ? Hnotin Hrest]; subst.
  destruct (Nat.eqb_spec (_id u) id) as [E|E].
  - subst id. now rewrite map_absent.
  - now rewrite IH.
Qed.

Lemma lookup_id_map id (f : User -> User) st :
  (forall u, _id (f u) = _id u) ->
  lookup_id id (map f st) = option_map f (lookup_id id st).
Proof.
  intros Hf. unfold lookup_id. induction st as [|u rest IH]; simpl;
    [reflexivity|].
  rewrite Hf. destruct (Nat.eqb (_id u) id); [reflexivity|assumption].
Qed.

Lemma lookup_id_in u st :
  NoDup (map _id st) -> In u st -> lookup_id (_id u) st = Some u.
Proof.
  unfold lookup_id. induction st as [|v rest IH]; simpl; intros Hnd Hin;
    [contradiction|].
  inversion Hnd as [|? ? Hnotin Hrest]; subst.
  destruct Hin as [->|Hin].
  - now rewrite Nat.eqb_refl.
  - destruct (Nat.eqb_spec (_id v) (_id u)) as [E|E]; [|auto].
    exfalso. apply Hnotin. rewrite E. now apply in_map.
Qed.

(** ** The sort *)

Lemma insert_desc_perm u l : Permutation (insert_desc u l) (u :: l).
Proof.
  induction l as [|v rest IH]; simpl; [reflexivity|].
  destruct (totalScore v <=? totalScore u)%Z; [reflexivity|].
  rewrite IH. apply perm_swap.
Qed.

Lemma sort_perm st : Permutation (sort_totalScore_desc st) st.
Proof.
  induction st as [|u rest IH]; simpl; [reflexivity|].
  now rewrite insert_desc_perm, IH.
Qed.

Lemma insert_desc_sorted u l :
  StronglySorted desc l -> StronglySorted desc (insert_desc u l).
Proof.
  induction l as [|v rest IH]; simpl; intros H.
  - repeat constructor.
  - inversion H as [|? ? Hrest Hall]; subst.
    destruct (Z.leb_spec (totalScore v) (totalScore u)) as [Hle|Hlt].
    + constructor; [assumption|]. constructor; [assumption|].
      eapply Forall_impl; [|exact Hall]. unfold desc. intros; lia.
    + constructor; [now apply IH|].
      rewrite (insert_desc_perm u rest). constructor; [|assumption].
      unfold desc. lia.
Qed.

Lemma sort_sorted st : StronglySorted desc (sort_totalScore_desc st).
Proof.
  induction st as [|u rest IH]; simpl; [constructor|].
  now apply insert_desc_sorted.
Qed.

Lemma sorted_nth (l : list User) :
  StronglySorted desc l ->
  forall i j a b, (i < j)%nat ->
  nth_error l i = Some a -> nth_error l j = Some b -> desc a b.
Proof.
  induction 1 as [|x l Hl IH Hall]; intros i j a b Hij Ha Hb.
  - destruct i; discriminate.
  - destruct j as [|j]; [lia|]. simpl in Hb. destruct i as [|i]; simpl in Ha.
    + inversion Ha; subst. rewrite Forall_forall in Hall.
      apply Hall. eapply nth_error_In; eassumption.
    + eapply IH; [|eassumption|eassumption]. lia.
Qed.

(** ** Rank recomputation *)

Lemma ranked_id ids i u : _id (ranked ids i u) = _id u.
Proof.
  revert i. induction ids as [|id rest IH]; intros i; simpl; [reflexivity|].
  destruct (Nat.eqb (_id u) id); [reflexivity|apply IH].
Qed.

Lemma ranked_totalScore ids i u :
  totalScore (ranked ids i u) = totalScore u.
Proof.
  revert i. induction ids as [|id rest IH]; intros i; simpl; [reflexivity|].
  destruct (Nat.eqb (_id u) id); [reflexivity|apply IH].
Qed.

Lemma ranked_absent ids i u : ~ In (_id u) ids -> ranked ids i u = u.
Proof.
  revert i. induction ids as [|id rest IH]; intros i H; simpl; [reflexivity|].
  simpl in H. destruct (Nat.eqb_spec (_id u) id); [intuition congruence|].
  apply IH. tauto.
Qed.

Lemma map_id_preserved (f : User -> User) st :
  (forall u, _id (f u) = _id u) -> map _id (map f st) = map _id st.
Proof.
  intros Hf. rewrite map_map. apply map_ext. exact Hf.
Qed.

(** The writes of the ranks, one after the other, give every document of
    the store the rank of its id. *)
Lemma assignRanks_ranked sorted :
  NoDup (map _id sorted) ->
  forall i st, NoDup (map _id st) ->
  assignRanks sorted i st = map (ranked (map _id sorted) i) st.
Proof.
  induction sorted as [|u0 rest IH]; intros Hs i st Hst; simpl.
  - now rewrite map_id.
  - inversion Hs as [|? ? Hnotin Hrest]; subst.
    rewrite update_by_id_map by assumption.
    rewrite IH; [|assumption|].
    + rewrite map_map. apply map_ext. intros u.
      destruct (Nat.eqb_spec (_id u) (_id u0)) as [E|E]; [|reflexivity].
      apply ranked_absent. simpl. now rewrite E.
    + rewrite map_id_preserved; [assumption|].
      intros u. now destruct (Nat.eqb (_id u) (_id u0)).
Qed.

Lemma ranked_nth sorted :
  NoDup (map _id sorted) ->
  forall i j u, nth_error sorted i = Some u ->
  ranked (map _id sorted) j u = with_rank (Z.of_nat (j + i) + 1)%Z u.
Proof.
  induction sorted as [|u0 rest IH]; intros Hs i j u Hi.
  - destruct i; discriminate.
  - inversion Hs as [|? ? Hnotin Hrest]; subst. simpl.
    destruct i as [|i]; simpl in Hi.
    + inversion Hi; subst. now rewrite Nat.eqb_refl, Nat.add_0_r.
    + destruct (Nat.eqb_spec (_id u) (_id u0)) as [E|E].
      * exfalso. apply Hnotin. rewrite <- E. apply in_map.
        eapply nth_error_In; eassumption.
      * rewrite (IH Hrest i (S j) u Hi). do 3 f_equal. lia.
Qed.

Lemma ranked_numbered sorted :
  NoDup (map _id sorted) ->
  forall i, map (ranked (map _id sorted) i) sorted = numbered i sorted.
Proof.
  induction sorted as [|u0 rest IH]; intros Hs i; simpl; [reflexivity|].
  inversion Hs as [|? ? Hnotin Hrest]; subst.
  rewrite Nat.eqb_refl. f_equal.
  rewrite <- IH by assumption. apply map_ext_in. intros u Hu.
  destruct (Nat.eqb_spec (_id u) (_id u0)) as [E|E]; [|reflexivity].
  exfalso. apply Hnotin. rewrite <- E. now apply in_map.
Qed.

Lemma numbered_ranks sorted :
  forall i, map rank (numbered i sorted) =
            map Z.of_nat (seq (S i) (List.length sorted)).
Proof.
  induction sorted as [|u rest IH]; intros i; simpl; [reflexivity|].
  rewrite IH. f_equal. lia.
Qed.

Lemma numbered_In sorted :
  forall j u, In u (numbered j sorted) ->
  exists i u0, nth_error sorted i = Some u0 /\
               u = with_rank (Z.of_nat (j + i) + 1)%Z u0.
Proof.
  induction sorted as [|u0 rest IH]; intros j u Hin; simpl in Hin;
    [contradiction|].
  destruct Hin as [<-|Hin].
  - exists 0%nat, u0. now rewrite Nat.add_0_r.
  - destruct (IH (S j) u Hin) as (i & u1 & Hi & ->).
    exists (S i), u1. split; [assumption|]. do 3 f_equal. lia.
Qed.

Lemma sorted_ids_nodup st :
  NoDup (map _id st) -> NoDup (map _id (sort_totalScore_desc st)).
Proof.
  intros H. eapply Permutation_NoDup; [|exact H].
  apply Permutation_map. symmetry. apply sort_perm.
Qed.

Lemma updateRanks_ranked st :
  NoDup (map _id st) ->
  updateRanks st = map (ranked (map _id (sort_totalScore_desc st)) 0) st.
Proof.
  intros H. unfold updateRanks.
  apply assignRanks_ranked; [now apply sorted_ids_nodup|assumption].
Qed.

Lemma updateRanks_numbered st :
  NoDup (map _id st) ->
  Permutation (updateRanks st) (numbered 0 (sort_totalScore_desc st)).
Proof.
  intros H. rewrite updateRanks_ranked by assumption.
  rewrite <- ranked_numbered by now apply sorted_ids_nodup.
  apply Permutation_map. symmetry. apply sort_perm.
Qed.

(** C1: with one document per id, the rank recomputation leaves the users
    and their totals as they are; the ranks it assigns are 1, ..., N,
    each once; the user at position i of the list sorted by [totalScore]
    descending gets rank i + 1; and of two users the one with the greater
    [totalScore] has the smaller rank. *)
Theorem ranks_are_1_to_N (st : Store.t) :
  NoDup (map _id st) ->
  map _id (updateRanks st) = map _id st /\
  map totalScore (updateRanks st) = map totalScore st /\
  Permutation (map rank (updateRanks st))
              (map Z.of_nat (seq 1 (List.length st))) /\
  (forall i u, nth_error (sort_totalScore_desc st) i = Some u ->
     lookup_id (_id u) (updateRanks st) =
     Some (with_rank (Z.of_nat i + 1)%Z u)) /\
  (forall u v, In u (updateRanks st) -> In v (updateRanks st) ->
     (totalScore v < totalScore u)%Z -> (rank u < rank v)%Z).
Proof.
  intros Hnd.
  pose proof (sorted_ids_nodup st Hnd) as Hsnd.
  pose proof (sort_perm st) as Hperm.
  split; [|split; [|split; [|split]]].
  - rewrite updateRanks_ranked by assumption.
    apply map_id_preserved. intros u. apply ranked_id.
  - rewrite updateRanks_ranked by assumption.
    rewrite map_map. apply map_ext. intros u. apply ranked_totalScore.
  - rewrite (Permutation_map rank (updateRanks_numbered st Hnd)).
    rewrite numbered_ranks.
    now rewrite (Permutation_length Hperm).
  - intros i u Hi. rewrite updateRanks_ranked by assumption.
    rewrite lookup_id_map by (intros; apply ranked_id).
    rewrite lookup_id_in; [|assumption|].
    + simpl. f_equal. apply (ranked_nth _ Hsnd i 0%nat u Hi).
    + apply (Permutation_in _ Hperm). eapply nth_error_In; eassumption.
  - intros u v Hu Hv Hlt.
    apply (Permutation_in _ (updateRanks_numbered st Hnd)) in Hu, Hv.
    apply numbered_In in Hu, Hv.
    destruct Hu as (i & u0 & Hi & ->). destruct Hv as (j & v0 & Hj & ->).
    simpl in *.
    destruct (Nat.lt_trichotomy i j) as [H|[H|H]]; [lia| |].
    + subst j. rewrite Hi in Hj. inversion Hj; subst. lia.
    + pose proof (sorted_nth _ (sort_sorted st) j i v0 u0 H Hj Hi) as Hd.
      unfold desc in Hd. lia.
Qed.

Lemma sample_store_ranks :
  map rank (updateRanks sample_store) = [2; 3; 1]%Z /\
  Permutation (map rank (updateRanks sample_store)) [1; 2; 3]%Z.
Proof.
  split; [reflexivity|].
  apply (proj1 (proj2 (proj2 (ranks_are_1_to_N sample_store
           ltac:(repeat constructor; simpl; intuition discriminate))))).
Defined.

(** ** The single-platform update route *)

(** The store is written only by a request that is answered with 200. *)
Lemma POST_writes_only_on_200 db reachable request st :
  status (fst (POST db reachable request st)) <> 200%Z ->
  snd (POST db reachable request st) = st.
Proof.
  unfold POST.
  destruct request as [|body]; simpl; [reflexivity|].
  unfold get. destruct (nullish body); simpl; [reflexivity|].
  destruct (negb (truthy (prop body "email"))
            || negb (truthy (prop body "codeforcesUsername"))
            || negb (truthy (prop body "stats"))); simpl; [reflexivity|].
  destruct reachable; simpl; [|reflexivity].
  destruct (findOne db (prop body "email") st) as [user|]; simpl;
    [|reflexivity].
  destruct (nullish (prop body "stats")); simpl; [reflexivity|].
  destruct (assignCodeforces db user (prop body "codeforcesUsername")
              (prop (prop body "stats") "contribution")); simpl;
    [congruence|reflexivity].
Qed.

(** C8, as stated, fails: a request whose body is [null], or is not
    JSON at all (an empty body), has none of the required fields; the
    route throws on reading the first and answers 500 with "Internal
    server error", not 400. *)
Lemma null_body_is_500 :
  has_field (Json VNull) "email" = false /\
  POST strict_schema true (Json VNull) sample_store
  = (internal_error, sample_store) /\
  has_field NotJson "email" = false /\
  POST strict_schema true NotJson sample_store
  = (internal_error, sample_store) /\
  status internal_error <> status bad_request.
Proof.
  repeat split. discriminate.
Qed.

(** C8 (amended): a request whose body is a JSON value other than [null]
    with a field among email, codeforcesUsername and stats missing
    (absent, or empty) is answered 400 with the message "Missing
    required fields"; such a request with the three fields, whose email
    no user of the reachable store matches, is answered 404; a request
    whose body is [null] or is not JSON is answered 500.  The store is
    the same after each. *)
Theorem update_route_rejections (db : Schema) (reachable : bool)
        (body : value) (st : Store.t) :
  (nullish body = false ->
   truthy (prop body "email") = false \/
   truthy (prop body "codeforcesUsername") = false \/
   truthy (prop body "stats") = false ->
   POST db reachable (Json body) st = (bad_request, st)) /\
  (nullish body = false ->
   truthy (prop body "email") = true ->
   truthy (prop body "codeforcesUsername") = true ->
   truthy (prop body "stats") = true ->
   reachable = true ->
   findOne db (prop body "email") st = None ->
   POST db reachable (Json body) st = (not_found, st)) /\
  (nullish body = true ->
   POST db reachable (Json body) st = (internal_error, st)) /\
  POST db reachable NotJson st = (internal_error, st).
Proof.
  unfold POST. cbn [request_json bind]. unfold get.
  split; [|split; [|split]].
  - intros Hbody Hmissing. rewrite Hbody. cbn [bind].
    assert (negb (truthy (prop body "email"))
            || negb (truthy (prop body "codeforcesUsername"))
            || negb (truthy (prop body "stats")) = true) as ->; [|reflexivity].
    destruct Hmissing as [ -> | [ -> | -> ] ]; simpl;
      rewrite ?orb_true_r; reflexivity.
  - intros Hbody. rewrite Hbody. cbn [bind].
    intros -> -> -> -> Hnone. cbn [negb orb connectMongoDB bind].
    now rewrite Hnone.
  - intros ->. reflexivity.
  - reflexivity.
Qed.

Lemma rejected_requests :
  POST strict_schema true (Json request_without_stats) sample_store
  = (bad_request, sample_store) /\
  POST strict_schema true (Json request_unknown_email) sample_store
  = (not_found, sample_store).
Proof.
  destruct (update_route_rejections strict_schema true
              request_without_stats sample_store) as (Hbad & _).
  destruct (update_route_rejections strict_schema true
              request_unknown_email sample_store) as (_ & Hnone & _).
  split.
  - apply Hbad; [reflexivity|]. right. right. reflexivity.
  - apply Hnone; reflexivity.
Defined.

(** ** A complete cycle *)



(** ** The aggregation phase as a map over the store *)

(** The five casts of a write, one after the other; [otherwise] closes
    the cases in which one of them is refused. *)
Ltac cast_cases db upd otherwise :=
  destruct (castNumber db (codechef_score upd)); [|otherwise];
  destruct (castNumber db (codeforces_score upd)); [|otherwise];
  destruct (castNumber db (leetcode_score upd)); [|otherwise];
  destruct (castNumber db (github_score upd)); [|otherwise];
  destruct (castNumber db (total_score upd)); [|otherwise].

Lemma update_by_id_same id st : update_by_id id (fun doc => doc) st = st.
Proof.
  induction st as [|u rest IH]; simpl; [reflexivity|].
  destruct (Nat.eqb (_id u) id); [reflexivity|now rewrite IH].
Qed.

Lemma updateUser_eq db w st user :
  updateUser db w st user =
  update_by_id (_id user) (applyScores db w user) st.
Proof.
  unfold updateUser, applyScores, findByIdAndUpdate_scores.
  destruct (userScores w user) as [upd|e]; cbn [bind];
    [|now rewrite update_by_id_same].
  cast_cases db upd ltac:(now rewrite update_by_id_same).
  reflexivity.
Qed.

Lemma applyScores_id db w snapshot doc :
  _id (applyScores db w snapshot doc) = _id doc.
Proof.
  unfold applyScores.
  destruct (userScores w snapshot) as [upd|e]; [|reflexivity].
  cast_cases db upd ltac:(reflexivity). reflexivity.
Qed.

Lemma lookup_id_none id st : ~ In id (map _id st) -> lookup_id id st = None.
Proof.
  unfold lookup_id. induction st as [|u rest IH]; simpl; intros H;
    [reflexivity|].
  destruct (Nat.eqb_spec (_id u) id); [tauto|]. apply IH. tauto.
Qed.

(** The loop over the users read, on a store with one document per id:
    every document whose id was read is updated from what was read. *)
Lemma batch_as_map db w users :
  NoDup (map _id users) ->
  forall st, NoDup (map _id st) ->
  fold_left (updateUser db w) users st =
  map (fun doc => match lookup_id (_id doc) users with
                  | Some u => applyScores db w u doc
                  | None => doc
                  end) st.
Proof.
  induction users as [|u rest IH]; intros Hu st Hst; simpl.
  - now rewrite map_id.
  - inversion Hu as [|? ? Hnotin Hrest]; subst.
    rewrite updateUser_eq, update_by_id_map by assumption.
    rewrite IH; [|assumption|].
    + rewrite map_map. apply map_ext. intros doc. unfold lookup_id. simpl.
      rewrite (Nat.eqb_sym (_id u) (_id doc)).
      destruct (Nat.eqb_spec (_id doc) (_id u)) as [E|E]; [|reflexivity].
      rewrite applyScores_id, E.
      fold (lookup_id (_id u) rest). now rewrite lookup_id_none.
    + rewrite map_id_preserved; [assumption|]. intros doc.
      destruct (Nat.eqb (_id doc) (_id u)); [apply applyScores_id|reflexivity].
Qed.


(** ** Refreshing twice *)


Lemma entry_username_set_score e x :
  entry_username (set_score e x) = entry_username e.
Proof. destruct e as [[u s]|]; reflexivity. Qed.

Lemma entry_score_set_score e x : entry_score (set_score e x) = VNum x.
Proof. reflexivity. Qed.


Section RefreshTwice.

(** One schema, which leaves a number written to a number field as it
    is, and one world for both cycles. *)
Variable db : Schema.
Variable w : World.
Hypothesis castNumber_number : forall n, castNumber db (VNum n) = Some n.













End RefreshTwice.


(** * Further properties *)

(** ** The update route, beyond its rejections *)

Lemma lookup_replaced id (doc : User) st :
  _id doc = id -> In id (map _id st) ->
  lookup_id id (update_by_id id (fun _ => doc) st) = Some doc.
Proof.
  intros Hdoc. unfold lookup_id.
  induction st as [|u rest IH]; simpl; intros Hin; [contradiction|].
  destruct (Nat.eqb_spec (_id u) id) as [E|E]; simpl.
  - rewrite Hdoc, Nat.eqb_refl. reflexivity.
  - destruct (Nat.eqb_spec (_id u) id); [contradiction|].
    apply IH. destruct Hin; [contradiction|assumption].
Qed.

Lemma lookup_other id id' (doc : User) st :
  _id doc = id -> id' <> id ->
  lookup_id id' (update_by_id id (fun _ => doc) st) = lookup_id id' st.
Proof.
  intros Hdoc Hne. unfold lookup_id.
  induction st as [|u rest IH]; simpl; [reflexivity|].
  destruct (Nat.eqb_spec (_id u) id) as [E|E]; simpl.
  - rewrite Hdoc.
    destruct (Nat.eqb_spec id id'); [congruence|].
    destruct (Nat.eqb_spec (_id u) id'); [congruence|reflexivity].
  - destruct (Nat.eqb (_id u) id'); [reflexivity|assumption].
Qed.

Lemma findOne_in db q st user :
  findOne db q st = Some user -> In (_id user) (map _id st).
Proof.
  unfold findOne. intros H. apply find_some in H. apply in_map. tauto.
Qed.

Lemma assignCodeforces_eq db user codeforcesUsername uname e :
  codeforces (platforms user) = Some e ->
  castString db codeforcesUsername = Some uname ->
  forall v,
  assignCodeforces db user codeforcesUsername v =
  if nullish v then Normal (with_codeforces uname None user)
  else match castNumber db v with
       | Some n => Normal (with_codeforces uname (Some n) user)
       | None => Throw CastError
       end.
Proof.
  intros He Hs v. unfold assignCodeforces. rewrite He, Hs.
  destruct (nullish v); [reflexivity|].
  destruct (castNumber db v); reflexivity.
Qed.

(** X1: a request with the three fields, for an email that matches a user
    who has a Codeforces entry, with a username the schema takes as
    [uname] and a contribution it takes as the number [n], is answered
    200; afterwards the document of that user is the matched user with
    the Codeforces entry {username: uname, score: n} and nothing else
    changed ([totalScore] and [rank] included), and every other id finds
    what it found before. *)
Theorem update_route_success (db : Schema) (body : value) (st : Store.t)
        (user : User) (uname : string) (n : Z) :
  nullish body = false ->
  truthy (prop body "email") = true ->
  truthy (prop body "codeforcesUsername") = true ->
  truthy (prop body "stats") = true ->
  findOne db (prop body "email") st = Some user ->
  codeforces (platforms user) <> None ->
  castString db (prop body "codeforcesUsername") = Some uname ->
  nullish (prop (prop body "stats") "contribution") = false ->
  castNumber db (prop (prop body "stats") "contribution") = Some n ->
  exists st',
    POST db true (Json body) st = (updated, st') /\
    lookup_id (_id user) st' = Some (with_codeforces uname (Some n) user) /\
    totalScore (with_codeforces uname (Some n) user) = totalScore user /\
    rank (with_codeforces uname (Some n) user) = rank user /\
    (forall id, id <> _id user -> lookup_id id st' = lookup_id id st).
Proof.
  intros Hbody Hemail Hname Hstats Hfound Hentry Hcs Hnn Hcn.
  destruct (codeforces (platforms user)) as [e|] eqn:He; [|congruence].
  assert (Hstats' : nullish (prop body "stats") = false).
  { destruct (prop body "stats"); simpl in *; congruence. }
  unfold POST. cbn [request_json bind]. unfold get. rewrite Hbody.
  cbn [bind]. rewrite Hemail, Hname, Hstats.
  cbn [negb orb connectMongoDB bind]. rewrite Hfound, Hstats'. cbn [bind].
  rewrite (assignCodeforces_eq db user _ uname e He Hcs), Hnn, Hcn.
  cbn [bind]. eexists. split; [reflexivity|].
  unfold save. cbn [with_codeforces _id].
  split; [|split; [reflexivity|split; [reflexivity|]]].
  - apply lookup_replaced; [reflexivity|].
    eapply findOne_in; eassumption.
  - intros id Hid. now apply lookup_other.
Qed.

Lemma alice_posts_codeforces :
  exists st',
    POST strict_schema true (Json request_alice_codeforces) sample_store
    = (updated, st') /\
    option_map (fun doc => (entry_score (entry Codeforces doc), totalScore doc))
               (lookup_id 1 st') = Some (VNum 12, 12%Z) /\
    lookup_id 2 st' = Some bob.
Proof.
  destruct (update_route_success strict_schema request_alice_codeforces
              sample_store alice "alice_cf" 12)
    as (st' & Hpost & Hdoc & _ & _ & Hothers);
    try reflexivity; [discriminate|].
  exists st'. split; [assumption|]. split.
  - change 1%nat with (_id alice). now rewrite Hdoc.
  - rewrite (Hothers 2%nat) by discriminate. reflexivity.
Defined.

(** X2: the route answers every request with 200, 400, 404 or 500, and a
    request that is not answered 200 leaves the store as it was. *)
Theorem update_route_statuses (db : Schema) (reachable : bool)
        (request : request_body) (st : Store.t) :
  let r := POST db reachable request st in
  status (fst r) = 200%Z \/
  ((status (fst r) = 400%Z \/ status (fst r) = 404%Z \/
    status (fst r) = 500%Z) /\ snd r = st).
Proof.
  cbv zeta.
  assert (H : status (fst (POST db reachable request st)) = 200%Z \/
              status (fst (POST db reachable request st)) = 400%Z \/
              status (fst (POST db reachable request st)) = 404%Z \/
              status (fst (POST db reachable request st)) = 500%Z).
  { unfold POST.
    destruct request as [|body]; simpl; [tauto|].
    unfold get. destruct (nullish body); simpl; [tauto|].
    destruct (negb (truthy (prop body "email"))
              || negb (truthy (prop body "codeforcesUsername"))
              || negb (truthy (prop body "stats"))); simpl; [tauto|].
    destruct reachable; simpl; [|tauto].
    destruct (findOne db (prop body "email") st) as [user|]; simpl;
      [|tauto].
    destruct (nullish (prop body "stats")); simpl; [tauto|].
    destruct (assignCodeforces db user (prop body "codeforcesUsername")
                (prop (prop body "stats") "contribution")); simpl; tauto. }
  destruct H as [H|H]; [now left|right]. split; [assumption|].
  apply POST_writes_only_on_200. destruct H as [H|[H|H]]; rewrite H;
    discriminate.
Qed.

(** X3: the handler of the route answers 500 with the message "Internal
    server error", and leaves the store as it was, when the body is not
    JSON, when it is [null], when the three fields are there and the
    database cannot be reached, when the matched user has no Codeforces
    entry, and when the schema refuses the username. *)
Theorem update_route_internal_errors (db : Schema) (reachable : bool)
        (body : value) (st : Store.t) :
  POST db reachable NotJson st = (internal_error, st) /\
  (nullish body = true ->
   POST db reachable (Json body) st = (internal_error, st)) /\
  (nullish body = false ->
   truthy (prop body "email") = true ->
   truthy (prop body "codeforcesUsername") = true ->
   truthy (prop body "stats") = true ->
   (reachable = false \/
    exists user,
      findOne db (prop body "email") st = Some user /\
      (codeforces (platforms user) = None \/
       castString db (prop body "codeforcesUsername") = None)) ->
   POST db reachable (Json body) st = (internal_error, st)).
Proof.
  split; [reflexivity|]. split.
  - intros Hbody. unfold POST. cbn [request_json bind]. unfold get.
    now rewrite Hbody.
  - intros Hbody Hemail Hname Hstats Hcause.
    assert (Hstats' : nullish (prop body "stats") = false).
    { destruct (prop body "stats"); simpl in *; congruence. }
    unfold POST. cbn [request_json bind]. unfold get. rewrite Hbody.
    cbn [bind]. rewrite Hemail, Hname, Hstats. cbn [negb orb].
    destruct Hcause as [->|(user & Hfound & Hwhy)]; [reflexivity|].
    destruct reachable; [|reflexivity]. cbn [connectMongoDB bind].
    rewrite Hfound, Hstats'. cbn [bind]. unfold assignCodeforces.
    destruct Hwhy as [->|Hcs]; [reflexivity|].
    destruct (codeforces (platforms user)); [|reflexivity].
    now rewrite Hcs.
Qed.

Lemma bob_has_no_codeforces_entry :
  POST strict_schema true (Json request_bob_codeforces) sample_store
  = (internal_error, sample_store) /\
  POST strict_schema false (Json request_alice_codeforces) sample_store
  = (internal_error, sample_store).
Proof.
  split.
  - apply (proj2 (proj2 (update_route_internal_errors strict_schema true
                           request_bob_codeforces sample_store)));
      try reflexivity.
    right. exists bob. split; [reflexivity|]. left. reflexivity.
  - apply (proj2 (proj2 (update_route_internal_errors strict_schema false
                           request_alice_codeforces sample_store)));
      try reflexivity.
    left. reflexivity.
Defined.

(** ** The leaderboard route *)

Lemma insert_asc_perm u l : Permutation (Leaderboard.insert_asc u l) (u :: l).
Proof.
  induction l as [|v rest IH]; simpl; [reflexivity|].
  destruct (rank u <=? rank v)%Z; [reflexivity|].
  rewrite IH. apply perm_swap.
Qed.

Lemma sort_rank_perm st : Permutation (Leaderboard.sort_rank_asc st) st.
Proof.
  induction st as [|u rest IH]; simpl; [reflexivity|].
  now rewrite insert_asc_perm, IH.
Qed.

Lemma insert_asc_sorted u l :
  StronglySorted ascending l ->
  StronglySorted ascending (Leaderboard.insert_asc u l).
Proof.
  induction l as [|v rest IH]; simpl; intros H.
  - repeat constructor.
  - inversion H as [|? ? Hrest Hall]; subst.
    destruct (Z.leb_spec (rank u) (rank v)) as [Hle|Hlt].
    + constructor; [assumption|]. constructor; [assumption|].
      eapply Forall_impl; [|exact Hall]. unfold ascending. intros; lia.
    + constructor; [now apply IH|].
      rewrite (insert_asc_perm u rest). constructor; [|assumption].
      unfold ascending. lia.
Qed.

Lemma sort_rank_sorted st :
  StronglySorted ascending (Leaderboard.sort_rank_asc st).
Proof.
  induction st as [|u rest IH]; simpl; [constructor|].
  now apply insert_asc_sorted.
Qed.

(** X4: with the database in reach the leaderboard route answers 200 with
    the users of the store, each once, in ascending order of [rank];
    without it, 500 with the message "Internal server error". *)
Theorem leaderboard_by_rank (st : Store.t) :
  (exists l,
     Leaderboard.GET true st =
     {| Leaderboard.body := Leaderboard.Users l;
        Leaderboard.status := 200 |} /\
     Permutation l st /\ StronglySorted ascending l) /\
  Leaderboard.GET false st =
  {| Leaderboard.body := Leaderboard.Message "Internal server error";
     Leaderboard.status := 500 |}.
Proof.
  split; [|reflexivity].
  exists (Leaderboard.sort_rank_asc st).
  split; [reflexivity|]. split; [apply sort_rank_perm|apply sort_rank_sorted].
Qed.

(** A list in ascending order of rank that has the elements of a list in
    strictly ascending order is that list. *)
Lemma ascending_unique l' :
  StronglySorted strictly_ascending l' ->
  forall l, StronglySorted ascending l -> Permutation l l' -> l = l'.
Proof.
  induction 1 as [|x xs Hxs IH Hx]; intros l Hl Hperm.
  - symmetry in Hperm. now apply Permutation_nil in Hperm.
  - destruct l as [|y ys]; [now apply Permutation_nil in Hperm|].
    inversion Hl as [|? ? Hys Hy]; subst.
    rewrite Forall_forall in Hx, Hy.
    assert (Hyx : y = x).
    { assert (Hin : In y (x :: xs))
        by (apply (Permutation_in _ Hperm); now left).
      destruct Hin as [E|Hin]; [congruence|].
      assert (Hin' : In x (y :: ys))
        by (apply (Permutation_in _ (Permutation_sym Hperm)); now left).
      destruct Hin' as [E|Hin']; [congruence|].
      specialize (Hx y Hin). specialize (Hy x Hin').
      unfold ascending, strictly_ascending in *. lia. }
    subst y. f_equal. apply IH; [assumption|].
    eapply Permutation_cons_inv; eassumption.
Qed.

Lemma numbered_lower sorted :
  forall j u, In u (numbered j sorted) -> (Z.of_nat j < rank u)%Z.
Proof.
  intros j u Hin. apply numbered_In in Hin.
  destruct Hin as (i & u0 & _ & ->). simpl. lia.
Qed.

Lemma numbered_strictly_ascending sorted :
  forall j, StronglySorted strictly_ascending (numbered j sorted).
Proof.
  induction sorted as [|u rest IH]; intros j; simpl; constructor.
  - apply IH.
  - apply Forall_forall. intros v Hv. apply numbered_lower in Hv.
    unfold strictly_ascending. simpl. lia.
Qed.

(** X5: on a store with one document per id, the leaderboard read right
    after the rank recomputation lists the users by descending
    [totalScore], the first with rank 1, the next with rank 2, and so
    on. *)
Theorem leaderboard_after_ranks (st : Store.t) :
  NoDup (map _id st) ->
  Leaderboard.GET true (updateRanks st) =
  {| Leaderboard.body :=
       Leaderboard.Users (numbered 0 (sort_totalScore_desc st));
     Leaderboard.status := 200 |}.
Proof.
  intros Hnd. unfold Leaderboard.GET. cbn [connectMongoDB bind].
  do 2 f_equal. apply ascending_unique.
  - apply numbered_strictly_ascending.
  - apply sort_rank_sorted.
  - rewrite sort_rank_perm. now apply updateRanks_numbered.
Qed.

Lemma sample_leaderboard :
  Leaderboard.GET true (updateRanks sample_store) =
  {| Leaderboard.body :=
       Leaderboard.Users [with_rank 1 carol; with_rank 2 alice;
                          with_rank 3 bob];
     Leaderboard.status := 200 |}.
Proof.
  apply (leaderboard_after_ranks sample_store).
  repeat constructor; simpl; intuition discriminate.
Defined.

(** ** The fetchers, beyond their fallback *)

Lemma sumCommits_bob_reversed :
  sumCommits bob_world (VStr "bob") (VNum 0)
    [VObj [("name", VStr "tools")]; VObj [("name", VStr "site")]] =
  sumCommits bob_world (VStr "bob") (VNum 0)
    [VObj [("name", VStr "site")]; VObj [("name", VStr "tools")]].
Proof.
  apply sumCommits_any_order.
  - apply perm_swap.
  - repeat constructor; simpl; eexists; reflexivity.
Defined.

(** X6: a response that passes the success test of its platform and has
    nothing truthy where the score is read (no heat map or an empty one,
    no contribution or a contribution of 0, no totalSolved) gives the
    score 0, whatever the previous score was. *)
Theorem success_without_score_is_zero (w : World)
        (username prevScore data : value) :
  (codechef_api w (to_string username) = Body data ->
   truthy (prop data "success") = true ->
   truthy (get_opt (prop data "heatMap") "length") = false ->
   fetchCodeChefStats w username prevScore =
   Normal {| Stat.score := VNum 0 |}) /\
  (codeforces_api w (to_string username) = Body data ->
   prop data "status" = VStr "OK" ->
   nullish (prop data "result") = false ->
   nullish (item (prop data "result") 0) = false ->
   truthy (prop (item (prop data "result") 0) "contribution") = false ->
   fetchCodeforcesStats w username prevScore =
   Normal {| Stat.score := VNum 0 |}) /\
  (leetcode_api w (to_string username) = Body data ->
   prop data "status" = VStr "success" ->
   truthy (prop data "totalSolved") = false ->
   fetchLeetCodeStats w username prevScore =
   Normal {| Stat.score := VNum 0 |}).
Proof.
  split; [|split].
  - intros Hapi Hsuccess Hlen.
    rewrite fetchCodeChefStats_eq, Hapi. unfold codechef_fails.
    rewrite Hsuccess. unfold JS.or. rewrite Hlen.
    destruct data; simpl in *; congruence.
  - intros Hapi Hstatus Hresult Hfirst Hcontribution.
    rewrite fetchCodeforcesStats_eq, Hapi. unfold codeforces_fails.
    rewrite Hstatus, Hresult, Hfirst. unfold JS.or. rewrite Hcontribution.
    destruct data; simpl in *; congruence.
  - intros Hapi Hstatus Htotal.
    rewrite fetchLeetCodeStats_eq, Hapi. unfold leetcode_fails.
    rewrite Hstatus. unfold JS.or. rewrite Htotal.
    destruct data; simpl in *; congruence.
Qed.

Lemma scoreless_answers_reset_to_zero :
  fetchCodeChefStats scoreless_world (VStr "erin") (VNum 9) =
  Normal {| Stat.score := VNum 0 |} /\
  fetchCodeforcesStats scoreless_world (VStr "erin") (VNum 9) =
  Normal {| Stat.score := VNum 0 |} /\
  fetchLeetCodeStats scoreless_world (VStr "erin") (VNum 9) =
  Normal {| Stat.score := VNum 0 |}.
Proof.
  split; [|split].
  - apply (proj1 (success_without_score_is_zero scoreless_world
                    (VStr "erin") (VNum 9)
                    (VObj [("success", VBool true)]))); reflexivity.
  - apply (proj1 (proj2 (success_without_score_is_zero scoreless_world
                    (VStr "erin") (VNum 9)
                    (VObj [("status", VStr "OK");
                           ("result",
                            VArr [VObj [("handle", VStr "erin")]])]))));
      reflexivity.
  - apply (proj2 (proj2 (success_without_score_is_zero scoreless_world
                    (VStr "erin") (VNum 9)
                    (VObj [("status", VStr "success")])))); reflexivity.
Defined.

(** X7: a repository list with a [null] in it makes the GitHub fetcher
    return [{score: previousScore}], whatever the other repositories
    hold: the handler of the callback reads [repo.name] as well, so the
    callback of the [null] rejects and [Promise.all] with it. *)
Theorem null_repository_falls_back (w : World) (username prevScore : value)
        (repos : list value) :
  github_repos w (to_string username) = Response (VArr repos) ->
  In VNull repos ->
  (forall total, repoCommits w username total VNull = Throw TypeError) /\
  fetchGitHubStats w username prevScore =
  Normal {| Stat.score := prevScore |}.
Proof.
  intros Hrepos Hin. split.
  - reflexivity.
  - apply fetchGitHubStats_fails. unfold github_fails. rewrite Hrepos.
    destruct repos as [|repo rest]; [contradiction|].
    assert (existsb nullish (repo :: rest) = true) as ->.
    { apply existsb_exists. exists VNull. split; [assumption|reflexivity]. }
    apply orb_true_r.
Qed.

Lemma null_repo_keeps_previous :
  fetchGitHubStats null_repo_world (VStr "bob") (VNum 2) =
  Normal {| Stat.score := VNum 2 |}.
Proof.
  apply (null_repository_falls_back null_repo_world (VStr "bob") (VNum 2)
           [VObj [("name", VStr "site")]; VNull]).
  - reflexivity.
  - simpl. tauto.
Defined.

(** ** The batch loop, beyond one user's scores *)

Lemma same_but_scores_refl u : same_but_scores u u.
Proof. unfold same_but_scores. repeat split. Qed.

Lemma same_but_scores_trans u v x :
  same_but_scores u v -> same_but_scores v x -> same_but_scores u x.
Proof.
  unfold same_but_scores.
  intros (H1 & H2 & H3 & H4 & H5 & H6 & H7 & H8)
         (K1 & K2 & K3 & K4 & K5 & K6 & K7 & K8).
  repeat split; try congruence; intros p; now rewrite K8, H8.
Qed.

Lemma with_scores_same a b c d t u :
  same_but_scores u (with_scores a b c d t u).
Proof.
  unfold same_but_scores. repeat split.
  intros []; cbn [entry with_scores platforms codechef codeforces leetcode
                        github]; apply entry_username_set_score.
Qed.

Lemma applyScores_same db w snapshot doc :
  same_but_scores doc (applyScores db w snapshot doc).
Proof.
  unfold applyScores.
  destruct (userScores w snapshot) as [upd|e];
    [|apply same_but_scores_refl].
  cast_cases db upd ltac:(apply same_but_scores_refl).
  apply with_scores_same.
Qed.

Lemma update_by_id_related (R : User -> User -> Prop) id f st :
  (forall u, R u u) -> (forall u, R u (f u)) ->
  Forall2 R st (update_by_id id f st).
Proof.
  intros Hrefl Hf. induction st as [|u rest IH]; simpl; [constructor|].
  destruct (Nat.eqb (_id u) id).
  - constructor; [apply Hf|]. clear IH.
    induction rest; constructor; auto.
  - constructor; [apply Hrefl|assumption].
Qed.

Lemma Forall2_trans (R : User -> User -> Prop) :
  (forall u v x, R u v -> R v x -> R u x) ->
  forall l1 l2 l3, Forall2 R l1 l2 -> Forall2 R l2 l3 -> Forall2 R l1 l3.
Proof.
  intros Htrans l1 l2 l3 H12. revert l3.
  induction H12; intros l3 H23; inversion H23; subst; constructor; eauto.
Qed.

Lemma Forall2_refl (R : User -> User -> Prop) :
  (forall u, R u u) -> forall l, Forall2 R l l.
Proof.
  intros Hrefl l. induction l; constructor; auto.
Qed.

(** X9: whatever the users of a batch and whatever the endpoints answer,
    the batch leaves the store with the same documents in the same
    order, each with the identity fields, the rank and the platform
    usernames it had: it writes platform scores and [totalScore] and
    nothing else. *)
Theorem batch_keeps_identity (db : Schema) (w : World)
        (users : list User) (st : Store.t) :
  Forall2 same_but_scores st (updateLeaderboardBatch db w users st).
Proof.
  unfold updateLeaderboardBatch. revert st.
  induction users as [|user rest IH]; intros st; simpl.
  - apply Forall2_refl, same_but_scores_refl.
  - eapply (Forall2_trans _ same_but_scores_trans); [|apply IH].
    rewrite updateUser_eq. apply update_by_id_related.
    + apply same_but_scores_refl.
    + intros u. apply applyScores_same.
Qed.

(** X10: a user whose update the schema refuses (one of the five values
    cannot be cast) is skipped, and the batch goes on: the batch with
    that user in it does what the batch without it does. *)
Theorem refused_user_is_skipped (db : Schema) (w : World)
        (before after : list User) (user : User) (upd : ScoreUpdate)
        (st : Store.t) :
  userScores w user = Normal upd ->
  (castNumber db (codechef_score upd) = None \/
   castNumber db (codeforces_score upd) = None \/
   castNumber db (leetcode_score upd) = None \/
   castNumber db (github_score upd) = None \/
   castNumber db (total_score upd) = None) ->
  updateLeaderboardBatch db w (before ++ user :: after) st =
  updateLeaderboardBatch db w (before ++ after) st.
Proof.
  intros Hupd Hrefused. unfold updateLeaderboardBatch.
  rewrite !fold_left_app. cbn [fold_left]. f_equal.
  unfold updateUser, findByIdAndUpdate_scores. rewrite Hupd. cbn [bind].
  destruct Hrefused as [ -> | [ -> | [ -> | [ -> | -> ] ] ] ];
    repeat match goal with
           | |- context [match castNumber db ?v with _ => _ end] =>
               destruct (castNumber db v)
           end; reflexivity.
Qed.

Lemma dave_is_skipped :
  updateLeaderboardBatch strict_schema text_world [alice; dave; bob]
                         [alice; bob; dave] =
  updateLeaderboardBatch strict_schema text_world [alice; bob]
                         [alice; bob; dave].
Proof.
  apply (refused_user_is_skipped strict_schema text_world [alice] [bob]
           dave
           {| codechef_score := VNum 0; codeforces_score := VNum 0;
              leetcode_score := VStr "12"; github_score := VNum 0;
              total_score := VStr "0120" |}).
  - reflexivity.
  - right. right. left. reflexivity.
Defined.

Lemma add_string_l s b : exists t, add (VStr s) b = VStr t.
Proof. unfold add. cbn [to_primitive]. eexists. reflexivity. Qed.

Lemma add_string_r a s : exists t, add a (VStr s) = VStr t.
Proof.
  unfold add. cbn [to_primitive].
  destruct (to_primitive a); eexists; reflexivity.
Qed.

(** X11: when one of the four scores an aggregation results in is a
    string, the [+] of the four is a concatenation: the [totalScore] of
    the update is a string, not a sum. *)
Theorem string_score_makes_string_total (w : World) (user : User)
        (upd : ScoreUpdate) (p : platform) (s : string) :
  userScores w user = Normal upd ->
  updated_score p upd = VStr s ->
  exists t, total_score upd = VStr t.
Proof.
  intros Hupd Hs.
  destruct (userScores_returns w user) as (upd' & Hupd' & _ & Htotal).
  rewrite Hupd in Hupd'. inversion Hupd'; subst upd'. rewrite Htotal.
  destruct p; cbn [updated_score] in Hs; rewrite Hs.
  - destruct (add_string_l s (codeforces_score upd)) as [t1 ->].
    destruct (add_string_l t1 (leetcode_score upd)) as [t2 ->].
    apply add_string_l.
  - destruct (add_string_r (codechef_score upd) s) as [t1 ->].
    destruct (add_string_l t1 (leetcode_score upd)) as [t2 ->].
    apply add_string_l.
  - destruct (add_string_r (add (codechef_score upd) (codeforces_score upd))
                           s) as [t2 ->].
    apply add_string_l.
  - apply add_string_r.
Qed.

Lemma dave_total_is_text :
  exists upd t,
    userScores text_world dave = Normal upd /\
    leetcode_score upd = VStr "12" /\ total_score upd = VStr t.
Proof.
  exists {| codechef_score := VNum 0; codeforces_score := VNum 0;
            leetcode_score := VStr "12"; github_score := VNum 0;
            total_score := VStr "0120" |}.
  destruct (string_score_makes_string_total text_world dave
              {| codechef_score := VNum 0; codeforces_score := VNum 0;
                 leetcode_score := VStr "12"; github_score := VNum 0;
                 total_score := VStr "0120" |} Leetcode "12")
    as [t Ht]; [reflexivity|reflexivity|].
  exists t. repeat split. exact Ht.
Defined.

(** X12: a user read when the refresh began whose document is no longer
    in the store when the batch runs is passed over: the update by id
    finds nothing and the store stays as it is. *)
Theorem absent_user_is_passed_over (db : Schema) (w : World)
        (st : Store.t) (user : User) :
  ~ In (_id user) (map _id st) ->
  updateUser db w st user = st.
Proof.
  intros Habsent. rewrite updateUser_eq. now apply update_absent.
Qed.

Lemma dave_is_passed_over :
  updateUser strict_schema bob_world sample_store dave = sample_store.
Proof.
  apply (absent_user_is_passed_over strict_schema bob_world sample_store dave).
  simpl. intuition discriminate.
Defined.

Lemma lookup_id_perm id l l' :
  NoDup (map _id l) -> Permutation l l' ->
  lookup_id id l = lookup_id id l'.
Proof.
  intros Hnd Hperm.
  assert (Hnd' : NoDup (map _id l'))
    by (eapply Permutation_NoDup; [apply Permutation_map; eassumption|
                                   assumption]).
  destruct (in_dec Nat.eq_dec id (map _id l)) as [Hin|Hnotin].
  - apply in_map_iff in Hin. destruct Hin as (u & <- & Hu).
    rewrite (lookup_id_in u l Hnd Hu).
    symmetry. apply lookup_id_in; [assumption|].
    now apply (Permutation_in _ Hperm).
  - rewrite (lookup_id_none id l Hnotin). symmetry. apply lookup_id_none.
    intros Hin. apply Hnotin.
    eapply Permutation_in; [|exact Hin].
    apply Permutation_map. now symmetry.
Qed.

(** X13: with one document per id in the store and one entry per id
    among the users read, the store a batch leaves does not depend on
    the order in which the batch takes its users. *)
Theorem batch_order_is_irrelevant (db : Schema) (w : World)
        (users users' : list User) (st : Store.t) :
  NoDup (map _id users) ->
  NoDup (map _id st) ->
  Permutation users users' ->
  updateLeaderboardBatch db w users st =
  updateLeaderboardBatch db w users' st.
Proof.
  intros Hu Hst Hperm. unfold updateLeaderboardBatch.
  assert (Hu' : NoDup (map _id users'))
    by (eapply Permutation_NoDup; [apply Permutation_map; eassumption|
                                   assumption]).
  rewrite !batch_as_map by assumption.
  apply map_ext. intros doc.
  now rewrite (lookup_id_perm (_id doc) users users' Hu Hperm).
Qed.

Lemma sample_store_backwards :
  updateLeaderboardBatch strict_schema bob_world [alice; bob; carol]
                         sample_store =
  updateLeaderboardBatch strict_schema bob_world [carol; bob; alice]
                         sample_store.
Proof.
  apply (batch_order_is_irrelevant strict_schema bob_world
           [alice; bob; carol] [carol; bob; alice] sample_store).
  - repeat constructor; simpl; intuition discriminate.
  - repeat constructor; simpl; intuition discriminate.
  - apply (Permutation_rev [alice; bob; carol]).
Defined.

(** X15: a platform for which the user has no entry at all is given one
    by the aggregation when the schema takes the scores of that user,
    with no username and the score 0; when the schema refuses one of
    them the document stays as it was. *)
Theorem unregistered_platform_gets_zero (db : Schema) (w : World)
        (st : Store.t) (user : User) (p : platform) :
  (forall n, castNumber db (VNum n) = Some n) ->
  lookup_id (_id user) st = Some user ->
  entry p user = None ->
  exists upd doc,
    userScores w user = Normal upd /\
    lookup_id (_id user) (updateUser db w st user) = Some doc /\
    (accepted db upd = true ->
     entry p doc = Some {| username := None; Store.score := Some 0%Z |}) /\
    (accepted db upd = false -> doc = user).
Proof.
  intros Hcast Hstored Hentry.
  rewrite updateUser_eq, lookup_update_by_id
    by (intros; apply applyScores_id).
  rewrite Hstored. cbn [option_map].
  unfold applyScores, accepted.
  destruct (userScores_returns w user) as (upd & -> & Hcarry & _).
  exists upd. eexists. split; [reflexivity|]. split; [reflexivity|].
  specialize (Hcarry p). rewrite Hentry in Hcarry.
  specialize (Hcarry eq_refl). cbn in Hcarry.
  destruct (castNumber db (codechef_score upd)) as [a|] eqn:Ha;
    [|split; [discriminate|reflexivity]].
  destruct (castNumber db (codeforces_score upd)) as [b|] eqn:Hb;
    [|split; [discriminate|reflexivity]].
  destruct (castNumber db (leetcode_score upd)) as [c|] eqn:Hc;
    [|split; [discriminate|reflexivity]].
  destruct (castNumber db (github_score upd)) as [d|] eqn:Hd;
    [|split; [discriminate|reflexivity]].
  destruct (castNumber db (total_score upd)) as [t|];
    [|split; [discriminate|reflexivity]].
  split; [intros _|discriminate].
  destruct p; cbn [updated_score] in Hcarry;
    cbn [entry with_scores platforms codechef codeforces leetcode github]
      in *; rewrite Hentry; unfold set_score; do 3 f_equal.
  - rewrite Hcarry, Hcast in Ha. congruence.
  - rewrite Hcarry, Hcast in Hb. congruence.
  - rewrite Hcarry, Hcast in Hc. congruence.
  - rewrite Hcarry, Hcast in Hd. congruence.
Qed.

Lemma alice_gets_a_github_entry :
  exists doc,
    lookup_id 1 (updateUser strict_schema bob_world sample_store alice)
    = Some doc /\
    github (platforms doc) =
    Some {| username := None; Store.score := Some 0%Z |}.
Proof.
  destruct (unregistered_platform_gets_zero strict_schema bob_world
              sample_store alice Github)
    as (upd & doc & Hupd & Hdoc & Hyes & _).
  - reflexivity.
  - reflexivity.
  - reflexivity.
  - exists doc. split; [exact Hdoc|]. apply Hyes.
    vm_compute in Hupd. inversion Hupd; subst upd. reflexivity.
Defined.

Lemma platformStats_fallback w p e prev :
  platform_fails w p (entry_username e) = true ->
  platformStats (fetcher p w) e prev = Normal {| Stat.score := prev |}.
Proof.
  intros Hfails. unfold platformStats.
  destruct (truthy (entry_username e)); [|reflexivity].
  destruct p; cbn [fetcher platform_fails] in *.
  - rewrite fetchCodeChefStats_eq.
    destruct (codechef_api w (to_string (entry_username e)));
      try reflexivity. now rewrite Hfails.
  - rewrite fetchCodeforcesStats_eq.
    destruct (codeforces_api w (to_string (entry_username e)));
      try reflexivity. now rewrite Hfails.
  - rewrite fetchLeetCodeStats_eq.
    destruct (leetcode_api w (to_string (entry_username e)));
      try reflexivity. now rewrite Hfails.
  - now apply fetchGitHubStats_fails.
Qed.

Lemma userScores_fallback w user p :
  platform_fails w p (entry_username (entry p user)) = true ->
  exists upd,
    userScores w user = Normal upd /\
    updated_score p upd = JS.or (entry_score (entry p user)) (VNum 0).
Proof.
  intros Hfails. unfold userScores. cbv zeta.
  change (fetchCodeChefStats w) with (fetcher Codechef w).
  change (fetchCodeforcesStats w) with (fetcher Codeforces w).
  change (fetchLeetCodeStats w) with (fetcher Leetcode w).
  change (fetchGitHubStats w) with (fetcher Github w).
  destruct (platformStats_returns w Codechef (codechef (platforms user))
              (JS.or (entry_score (codechef (platforms user))) (VNum 0)))
    as (r1 & H1 & _).
  destruct (platformStats_returns w Codeforces (codeforces (platforms user))
              (JS.or (entry_score (codeforces (platforms user))) (VNum 0)))
    as (r2 & H2 & _).
  destruct (platformStats_returns w Leetcode (leetcode (platforms user))
              (JS.or (entry_score (leetcode (platforms user))) (VNum 0)))
    as (r3 & H3 & _).
  destruct (platformStats_returns w Github (github (platforms user))
              (JS.or (entry_score (github (platforms user))) (VNum 0)))
    as (r4 & H4 & _).
  cbn [fetcher] in H1, H2, H3, H4.
  change (fetchCodeChefStats w) with (fetcher Codechef w) in H1.
  change (fetchCodeforcesStats w) with (fetcher Codeforces w) in H2.
  change (fetchLeetCodeStats w) with (fetcher Leetcode w) in H3.
  change (fetchGitHubStats w) with (fetcher Github w) in H4.
  destruct p; cbn [entry] in Hfails;
    [rewrite (platformStats_fallback w Codechef _ _ Hfails) in *
    |rewrite (platformStats_fallback w Codeforces _ _ Hfails) in *
    |rewrite (platformStats_fallback w Leetcode _ _ Hfails) in *
    |rewrite (platformStats_fallback w Github _ _ Hfails) in *];
    repeat match goal with
           | H : Normal _ = Normal _ |- _ => inversion H; subst; clear H
           | H : platformStats _ _ _ = Normal _ |- _ => rewrite H; clear H
           end;
    cbn [bind]; eexists; split; reflexivity.
Qed.

(** X18: a platform for which the user has a username and a stored score
    n, and whose fetch fails (request rejected, body not JSON, success
    test not passed, or an access that throws), has the stored score n
    after the aggregation of that user. *)
Theorem stale_score_is_kept (db : Schema) (w : World) (st : Store.t)
        (user : User) (p : platform) (n : Z) :
  (forall n, castNumber db (VNum n) = Some n) ->
  lookup_id (_id user) st = Some user ->
  entry_score (entry p user) = VNum n ->
  platform_fails w p (entry_username (entry p user)) = true ->
  exists doc,
    lookup_id (_id user) (updateUser db w st user) = Some doc /\
    entry_score (entry p doc) = VNum n.
Proof.
  intros Hcast Hstored Hscore Hfails.
  rewrite updateUser_eq, lookup_update_by_id
    by (intros; apply applyScores_id).
  rewrite Hstored. cbn [option_map]. eexists. split; [reflexivity|].
  unfold applyScores.
  destruct (userScores_fallback w user p Hfails) as (upd & -> & Hkept).
  rewrite Hscore, or_num in Hkept.
  destruct (castNumber db (codechef_score upd)) as [a|] eqn:Ha;
    [|assumption].
  destruct (castNumber db (codeforces_score upd)) as [b|] eqn:Hb;
    [|assumption].
  destruct (castNumber db (leetcode_score upd)) as [c|] eqn:Hc;
    [|assumption].
  destruct (castNumber db (github_score upd)) as [d|] eqn:Hd;
    [|assumption].
  destruct (castNumber db (total_score upd)) as [t|]; [|assumption].
  destruct p; cbn [updated_score] in Hkept;
    cbn [entry with_scores platforms codechef codeforces leetcode github];
    rewrite entry_score_set_score; f_equal.
  - rewrite Hkept, Hcast in Ha. congruence.
  - rewrite Hkept, Hcast in Hb. congruence.
  - rewrite Hkept, Hcast in Hc. congruence.
  - rewrite Hkept, Hcast in Hd. congruence.
Qed.

Lemma carol_keeps_her_codechef_score :
  exists doc,
    lookup_id 3 (updateUser strict_schema bob_world sample_store carol)
    = Some doc /\ entry_score (entry Codechef doc) = VNum 9.
Proof.
  apply (stale_score_is_kept strict_schema bob_world sample_store carol
           Codechef 9); reflexivity.
Defined.

(** ** The rank recomputation and the schedule, beyond the claims *)

Lemma same_but_rank_refl u : same_but_rank u u.
Proof. unfold same_but_rank. now destruct u. Qed.

Lemma same_but_rank_trans u v x :
  same_but_rank u v -> same_but_rank v x -> same_but_rank u x.
Proof.
  unfold same_but_rank. intros -> ->. reflexivity.
Qed.

Lemma assignRanks_related sorted :
  forall i st, Forall2 same_but_rank st (assignRanks sorted i st).
Proof.
  induction sorted as [|u rest IH]; intros i st; simpl.
  - apply Forall2_refl, same_but_rank_refl.
  - eapply (Forall2_trans _ same_but_rank_trans); [|apply IH].
    apply update_by_id_related; [apply same_but_rank_refl|].
    intros v. reflexivity.
Qed.

(** X16: the rank recomputation leaves the store with the same documents
    in the same order, each changed in its [rank] at most, whatever the
    store holds (documents that share an id included). *)
Theorem ranks_change_rank_only (st : Store.t) :
  Forall2 same_but_rank st (updateRanks st).
Proof.
  apply assignRanks_related.
Qed.

Lemma batchTimers_are_batches n users B I :
  forall i, Forall is_batch (batchTimers n users B I i).
Proof.
  induction n as [|n IH]; intros i; simpl; constructor.
  - eexists. reflexivity.
  - apply IH.
Qed.

(** X14: for at most 357913 users, [refreshLeaderboard] registers one
    timer per batch of 10 users and then the timer of the ranks; the
    k-th batch timer is set to k x 60000 ms, which makes it due after
    that time (after 1 ms for the first), and updates the users 10k to
    10k + 9 of the list read; the timer of the ranks is due 6000 ms per
    user plus 5000 ms after the scheduling, or the millisecond before
    that, and the timers fire in the order in which they were
    registered.  With no users there is the timer of the ranks alone,
    at 5000 ms. *)
Theorem refresh_schedule (st : Store.t) (fuel : nat) :
  within_timeout st ->
  (List.length st <= fuel)%nat ->
  let ranks := ranksTimer st batchSize updateInterval in
  exists batches,
    refreshLeaderboard fuel st = Some (batches ++ [ranks]) /\
    List.length batches = ceil_div (List.length st) 10 /\
    Forall is_batch batches /\
    (forall k t, nth_error batches k = Some t ->
       delay t == inject_Z (60000 * Z.of_nat k) /\
       timer_ms (delay t) = batch_ms (Z.of_nat k) /\
       batch_users t = slice st (k * 10) (k * 10 + 10)) /\
    (6000 * Z.of_nat (List.length st) + 4999 <= timer_ms (delay ranks)
     <= 6000 * Z.of_nat (List.length st) + 5000)%Z /\
    fire_order (batches ++ [ranks]) = batches ++ [ranks] /\
    (st = [] -> batches = [] /\ delay ranks == 5000).
Proof.
  intros HL Hfuel ranks.
  exists (batchTimers (ceil_div (List.length st) batchSize) st batchSize
                      updateInterval 0).
  split; [|split; [|split; [|split; [|split; [|split]]]]].
  - now apply refreshLeaderboard_timers.
  - apply length_batchTimers.
  - apply batchTimers_are_batches.
  - intros k t Hk. destruct (nth_batch st k t Hk) as [Hlt ->].
    destruct (batches_within st k (within_batches st HL) Hlt) as [H1 _].
    cbn [batchTimer delay]. split; [now apply batchDelay_exact|].
    split; [now apply batch_timer_ms|reflexivity].
  - destruct (ranksDelay_near st HL) as (_ & _ & _ & Hms).
    cbn [ranks ranksTimer delay]. lia.
  - apply fire_order_sorted. now apply refresh_timers_sorted.
  - intros ->. split; [reflexivity|]. vm_compute. reflexivity.
Qed.

Lemma fifteen_users_schedule :
  exists batches,
    refreshLeaderboard 15 fifteen_users =
    Some (batches ++ [ranksTimer fifteen_users batchSize updateInterval]) /\
    List.length batches = 2%nat /\
    fire_order
      (batches ++ [ranksTimer fifteen_users batchSize updateInterval]) =
    batches ++ [ranksTimer fifteen_users batchSize updateInterval].
Proof.
  destruct (refresh_schedule fifteen_users 15)
    as (batches & Hrun & Hlen & _ & _ & _ & Horder & _).
  - unfold within_timeout. cbn. lia.
  - simpl. lia.
  - exists batches. split; [exact Hrun|]. split; [exact Hlen|exact Horder].
Defined.

(** ** The daily schedule *)

(** X17: from 1970 on, the job registered with [cron.schedule] runs once
    a day, in the minute that is 18:00 in Asia/Kolkata, which is 12:30
    UTC (minute 750 of the UTC day), and in no other minute: not at
    midnight in Asia/Kolkata, which is 18:30 UTC (minute 1110). *)
Theorem daily_refresh_time (t : Z) :
  (0 <= t)%Z ->
  Cron.refresh_fires t = Some (t mod 1440 =? 750)%Z /\
  Cron.refresh_fires t = Some ((t + 330) mod 1440 =? 18 * 60)%Z /\
  Cron.refresh_fires (1440 * t + 1110) = Some false /\
  Cron.refresh_fires (1440 * t + 750) = Some true.
Proof.
  intros Ht.
  assert (H : forall x, (0 <= x)%Z ->
             Cron.refresh_fires x =
             Some ((0 =? (x + 330) mod 60)%Z
                   && (18 =? ((x + 330) / 60) mod 24)%Z)).
  { intros x Hx. unfold Cron.refresh_fires, Cron.utc_offset.
    apply Z.leb_le in Hx. rewrite Hx. reflexivity. }
  rewrite !H by lia. repeat split; f_equal.
  - destruct (Z.eqb_spec 0 ((t + 330) mod 60));
      destruct (Z.eqb_spec 18 (((t + 330) / 60) mod 24));
      destruct (Z.eqb_spec (t mod 1440) 750); simpl;
      try reflexivity; exfalso; Z.div_mod_to_equations; lia.
  - destruct (Z.eqb_spec 0 ((t + 330) mod 60));
      destruct (Z.eqb_spec 18 (((t + 330) / 60) mod 24));
      destruct (Z.eqb_spec ((t + 330) mod 1440) (18 * 60)); simpl;
      try reflexivity; exfalso; Z.div_mod_to_equations; lia.
  - destruct (Z.eqb_spec 0 ((1440 * t + 1110 + 330) mod 60));
      destruct (Z.eqb_spec 18 (((1440 * t + 1110 + 330) / 60) mod 24));
      simpl; try reflexivity; exfalso; Z.div_mod_to_equations; lia.
  - destruct (Z.eqb_spec 0 ((1440 * t + 750 + 330) mod 60));
      destruct (Z.eqb_spec 18 (((1440 * t + 750 + 330) / 60) mod 24));
      simpl; try reflexivity; exfalso; Z.div_mod_to_equations; lia.
Qed.

(** The first day of 1970: the job runs at 12:30 UTC and not at 18:30
    UTC. *)
Lemma first_day_refresh_time :
  Cron.refresh_fires 750 = Some true /\
  Cron.refresh_fires 1110 = Some false.
Proof.
  destruct (daily_refresh_time 0 (Z.le_refl 0)) as (_ & _ & Hno & Hyes).
  split; [exact Hyes|exact Hno].
Defined.
